(** * Port allocation and registry utilities (tools/_shared/utils/port_utils.py)

    A shallow embedding of the cross-process port allocator: the liveness
    probe [is_port_available], the lock-guarded scan
    [find_available_port_with_lock], the registry writer [save_app_port] and
    the lock-free readers [get_app_port] and [get_all_app_ports].

    The operating system is an explicit [world]: one [workspace] per root
    directory (sentinel file, advisory lock, registry file, temporary file),
    the set of ports the OS lets a socket bind, a clock in milliseconds and a
    trace of the effects performed so far.  Python exceptions and a call that
    never returns are values of [outcome]. *)

From Stdlib Require Import ZArith List String Ascii Bool QArith Lia DecimalString.
Import ListNotations.
Open Scope string_scope.
Open Scope list_scope.
Open Scope Z_scope.

#[local] Set Warnings "-register-all".

(** ** Python values, as [json.load] produces them *)

Module Py.

(** [PFloat q] is a finite float, [PNonFinite] stands for the NaN and
    Infinity literals that [json.load] accepts.  A dict is an association
    list in insertion order; the keys of a dict that Python builds are
    distinct, and a statement that needs it says so with [NoDup]. *)
Inductive pyval : Type :=
| PNone
| PBool (b : bool)
| PInt (z : Z)
| PFloat (q : Q)
| PNonFinite
| PStr (s : string)
| PList (l : list pyval)
| PDict (d : list (string * pyval)).

Definition pydict := list (string * pyval).

Inductive exn : Type :=
| RuntimeError (msg : string)
| OSError
| TypeError
| KeyError
| AttributeError
| OverflowError.

(** The result of running a piece of Python: a value, an exception that
    propagates, or no return at all. *)
Inductive outcome (A : Type) : Type :=
| Ret (a : A)
| Raise (e : exn)
| Hang.
Arguments Ret {A} a.
Arguments Raise {A} e.
Arguments Hang {A}.

Definition obind {A B} (o : outcome A) (k : A -> outcome B) : outcome B :=
  match o with
  | Ret a => k a
  | Raise e => Raise e
  | Hang => Hang
  end.

(** [str(z)] for an int. *)
Definition str (z : Z) : string := NilZero.string_of_int (Z.to_int z).

(** *** dict operations *)

Fixpoint dict_get (k : string) (d : pydict) : option pyval :=
  match d with
  | [] => None
  | (k', v) :: rest => if String.eqb k k' then Some v else dict_get k rest
  end.

Definition dict_mem (k : string) (d : pydict) : bool :=
  match dict_get k d with Some _ => true | None => false end.

(** [d[k] = v]: an existing key keeps its position, a new key goes last. *)
Fixpoint dict_set (k : string) (v : pyval) (d : pydict) : pydict :=
  match d with
  | [] => [(k, v)]
  | (k', v') :: rest =>
      if String.eqb k k' then (k, v) :: rest else (k', v') :: dict_set k v rest
  end.

Definition dict_keys (d : pydict) : list string := map fst d.
Definition dict_values (d : pydict) : list pyval := map snd d.

(** *** the operators the module applies to loaded JSON *)

(** [s in x] for a str [s]. *)
Definition contains_str (x : pyval) (s : string) : outcome bool :=
  match x with
  | PDict d => Ret (dict_mem s d)
  | PList l =>
      Ret (existsb (fun v => match v with PStr s' => String.eqb s' s | _ => false end) l)
  | PStr t => Ret (match index 0 s t with Some _ => true | None => false end)
  | _ => Raise TypeError
  end.

(** [x[s]] for a str [s]. *)
Definition getitem_str (x : pyval) (s : string) : outcome pyval :=
  match x with
  | PDict d => match dict_get s d with Some v => Ret v | None => Raise KeyError end
  | _ => Raise TypeError
  end.

(** [x[s] = v] for a str [s]. *)
Definition setitem_str (x : pyval) (s : string) (v : pyval) : outcome pyval :=
  match x with
  | PDict d => Ret (PDict (dict_set s v d))
  | _ => Raise TypeError
  end.

(** [x.values()]. *)
Definition values (x : pyval) : outcome (list pyval) :=
  match x with
  | PDict d => Ret (dict_values d)
  | _ => Raise AttributeError
  end.

Definition hashable (v : pyval) : bool :=
  match v with
  | PList _ | PDict _ => false
  | _ => true
  end.

(** [p == v] for an int [p]: numeric across int, bool and float. *)
Definition eq_int (p : Z) (v : pyval) : bool :=
  match v with
  | PInt z => p =? z
  | PBool b => p =? (if b then 1 else 0)
  | PFloat q => Qeq_bool (inject_Z p) q
  | _ => false
  end.

(** [p in s] for an int [p] and a set [s], kept as the list of its elements. *)
Definition set_contains_int (s : list pyval) (p : Z) : bool :=
  existsb (eq_int p) s.

(** [range(n)]. *)
Definition range (n : Z) : list Z := map Z.of_nat (seq 0 (Z.to_nat n)).

End Py.
Import Py.

(** ** The world: file system, locks, ports, clock *)

(** What [open] followed by [json.load] finds at a path, told apart by what
    the two calls do: [Absent], there is no file; [Unreadable], a file is there
    and [open] or the read raises [IOError] (a file the caller may not read);
    [Malformed], [json.load] raises [json.JSONDecodeError] (a file caught
    half-written is one); [Parsed v], [json.load] returns [v].  A path on
    which [json.load] raises anything else ([UnicodeDecodeError] on bytes that
    are not text, [ValueError] on an integer literal beyond the digit limit,
    [RecursionError] on deep nesting) and a directory in the file's place have
    no state here: the statements below speak of these four states only. *)
Inductive file_state : Type :=
| Absent
| Unreadable
| Malformed
| Parsed (v : pyval).

(** The advisory lock on the sentinel, seen from the calling process: free,
    held by another process until a time (in ms), held by another process
    for good, or held by the caller. *)
Inductive lock_state : Type :=
| LockFree
| LockHeldUntil (t : Z)
| LockHeldForever
| LockHeldBySelf.

(** The files of one workspace root:
    [lock_file] is .port_allocation.lock, [ports_file] is .ports.json and
    [temp_file] is .ports.json.tmp; [dir_writable] says whether a file can be
    created there, [disk_full] whether a write runs out of space.
    [lock_file = true] stands for a sentinel that is there and that the caller
    can touch and open for update; a sentinel the caller may not open is not
    among the states. *)
Record workspace : Type := mkWorkspace {
  lock_file : bool;
  lock : lock_state;
  ports_file : file_state;
  temp_file : file_state;
  dir_writable : bool;
  disk_full : bool
}.

Definition filesystem := string -> workspace.

Inductive event : Type :=
| EvFlockNB (root : string) (t : Z) (acquired : bool)
| EvFlock (root : string) (t : Z)
| EvUnlock (root : string)
| EvSleep (ms : Z)
| EvFs (snapshot : filesystem).

(** [port_free p] says whether the OS would let a socket bind 0.0.0.0:p;
    [clock] is [time.time()] in milliseconds; [trace] lists the effects,
    latest first. *)
Record world : Type := mkWorld {
  fs : filesystem;
  port_free : Z -> bool;
  clock : Z;
  trace : list event
}.

Definition M (A : Type) := world -> outcome A * world.

Definition ret {A} (a : A) : M A := fun w => (Ret a, w).
Definition raise {A} (e : exn) : M A := fun w => (Raise e, w).
Definition lift {A} (o : outcome A) : M A := fun w => (o, w).

Definition bind {A B} (m : M A) (k : A -> M B) : M B :=
  fun w =>
    match m w with
    | (Ret a, w') => k a w'
    | (Raise e, w') => (Raise e, w')
    | (Hang, w') => (Hang, w')
    end.

(** [try: body finally: fin], for a [fin] that cannot fail. *)
Definition try_finally {A} (body : M A) (fin : world -> world) : M A :=
  fun w =>
    match body w with
    | (Hang, w') => (Hang, w')
    | (r, w') => (r, fin w')
    end.

Declare Scope py_scope.
Delimit Scope py_scope with py.
Notation "x <- c1 ;; c2" := (bind c1 (fun x => c2))
  (at level 61, c1 at next level, right associativity) : py_scope.
Notation "c1 ;;; c2" := (bind c1 (fun _ => c2))
  (at level 61, right associativity) : py_scope.
Open Scope py_scope.

(** *** primitive effects *)

Definition with_lock_file (b : bool) (d : workspace) : workspace :=
  mkWorkspace b (lock d) (ports_file d) (temp_file d) (dir_writable d) (disk_full d).

Definition with_ports_file (f : file_state) (d : workspace) : workspace :=
  mkWorkspace (lock_file d) (lock d) f (temp_file d) (dir_writable d) (disk_full d).

Definition with_temp_file (f : file_state) (d : workspace) : workspace :=
  mkWorkspace (lock_file d) (lock d) (ports_file d) f (dir_writable d) (disk_full d).

Definition with_lock (l : lock_state) (d : workspace) : workspace :=
  mkWorkspace (lock_file d) l (ports_file d) (temp_file d) (dir_writable d) (disk_full d).

Definition log (e : event) (w : world) : world :=
  mkWorld (fs w) (port_free w) (clock w) (e :: trace w).

Definition update_workspace (root : string) (d : workspace) (f : filesystem) : filesystem :=
  fun r => if String.eqb r root then d else f r.

(** A change of the files of [root]; the new file system is recorded. *)
Definition set_workspace (root : string) (d : workspace) (w : world) : world :=
  let f := update_workspace root d (fs w) in
  mkWorld f (port_free w) (clock w) (EvFs f :: trace w).

(** A change of the lock only: no file changes. *)
Definition set_lock (root : string) (l : lock_state) (w : world) : world :=
  mkWorld (update_workspace root (with_lock l (fs w root)) (fs w))
          (port_free w) (clock w) (trace w).

(** [time.time()], in milliseconds. *)
Definition time_ms : M Z := fun w => (Ret (clock w), w).

(** [time.sleep(ms / 1000)].  The clock of the model advances here only, and
    by [ms] exactly; a real sleep lasts at least that long, and the other
    steps of a loop take time as well.  What is stated about the times of a
    run is therefore stated with bounds that hold on both clocks. *)
Definition sleep_ms (ms : Z) : M unit :=
  fun w => (Ret tt, mkWorld (fs w) (port_free w) (clock w + ms) (EvSleep ms :: trace w)).

(** [lock_file_path.touch(exist_ok=True)]. *)
Definition touch_lock_file (root : string) : M unit :=
  fun w =>
    if lock_file (fs w root) then (Ret tt, w)
    else if dir_writable (fs w root)
         then (Ret tt, set_workspace root (with_lock_file true (fs w root)) w)
         else (Raise OSError, w).

(** Whether another process holds the lock at time [t]. *)
Definition held_by_other (l : lock_state) (t : Z) : bool :=
  match l with
  | LockFree | LockHeldBySelf => false
  | LockHeldUntil u => t <? u
  | LockHeldForever => true
  end.

(** [fcntl.flock(fd, LOCK_EX | LOCK_NB)]: [Ret false] is [BlockingIOError]. *)
Definition flock_nonblocking (root : string) : M bool :=
  fun w =>
    if held_by_other (lock (fs w root)) (clock w)
    then (Ret false, log (EvFlockNB root (clock w) false) w)
    else (Ret true, set_lock root LockHeldBySelf (log (EvFlockNB root (clock w) true) w)).

(** [fcntl.flock(fd, LOCK_EX)]: waits for the holder, for ever if need be. *)
Definition flock_blocking (root : string) : M unit :=
  fun w =>
    match lock (fs w root) with
    | LockHeldForever => (Hang, w)
    | LockHeldUntil u =>
        let w' := mkWorld (fs w) (port_free w) (Z.max (clock w) u) (trace w) in
        (Ret tt, set_lock root LockHeldBySelf (log (EvFlock root (clock w')) w'))
    | _ => (Ret tt, set_lock root LockHeldBySelf (log (EvFlock root (clock w)) w))
    end.

(** [fcntl.flock(fd, LOCK_UN)]. *)
Definition flock_unlock (root : string) (w : world) : world :=
  set_lock root LockFree (log (EvUnlock root) w).

(** [Path(__file__).parent.parent.parent] for tools/_shared/utils/port_utils.py. *)
Definition default_workspace_root : string := "tools".

Definition resolve_root (workspace_root : option string) : string :=
  match workspace_root with
  | None => default_workspace_root
  | Some r => r
  end.

(** ** Liveness probe *)

Inductive bind_result : Type := Bound | BindOSError | BindOverflow.

(** [s.bind(('0.0.0.0', port))]: CPython rejects a port outside 0..65535 with
    [OverflowError] before it asks the OS. *)
Definition socket_bind (w : world) (port : Z) : bind_result :=
  if (port <? 0) || (65535 <? port) then BindOverflow
  else if port_free w port then Bound
  else BindOSError.

Definition is_port_available (port : Z) (w : world) : outcome bool :=
  match socket_bind w port with
  | Bound => Ret true
  | BindOSError => Ret false
  | BindOverflow => Raise OverflowError
  end.

(** ** Allocation under the lock *)

Definition max_wait_ms : Z := 10000.
Definition poll_interval_ms : Z := 100.
Definition timeout_message : string := "Timeout waiting for port allocation lock".

(** The [while True] loop of lines 70-77.  [fuel] bounds the iterations of
    the model; running out of it is reported as [Hang], which
    [acquire_lock_poll_returns] shows never happens with [poll_fuel]. *)
Fixpoint acquire_lock_poll (fuel : nat) (root : string) (start_time : Z) : M unit :=
  match fuel with
  | O => lift Hang
  | S fuel' =>
      acquired <- flock_nonblocking root ;;
      if acquired : bool then ret tt
      else
        now <- time_ms ;;
        if now - start_time >? max_wait_ms
        then raise (RuntimeError timeout_message)
        else sleep_ms poll_interval_ms ;;; acquire_lock_poll fuel' root start_time
  end.

(** More iterations than the loop can make before the deadline. *)
Definition poll_fuel : nat := Z.to_nat (max_wait_ms / poll_interval_ms) + 2.

(** [{info['port'] for info in ports_data.values()}] over the values. *)
Fixpoint collect_ports (infos : list pyval) : outcome (list pyval) :=
  match infos with
  | [] => Ret []
  | info :: rest =>
      obind (getitem_str info "port") (fun p =>
      if hashable p then obind (collect_ports rest) (fun ps => Ret (p :: ps))
      else Raise TypeError)
  end.

(** Lines 81-88. *)
Definition load_allocated_ports (root : string) (w : world) : outcome (list pyval) :=
  match ports_file (fs w root) with
  | Absent => Ret []
  | Unreadable | Malformed => Ret []
  | Parsed ports_data => obind (values ports_data) collect_ports
  end.

Definition exhausted_message (preferred_port max_attempts : Z) : string :=
  ("Could not find available port starting from " ++ str preferred_port ++
   " after " ++ str max_attempts ++ " attempts")%string.

(** Lines 91-105, over the offsets still to try. *)
Fixpoint scan_ports (allocated_ports : list pyval) (preferred_port max_attempts : Z)
         (offsets : list Z) (w : world) : outcome Z :=
  match offsets with
  | [] => Raise (RuntimeError (exhausted_message preferred_port max_attempts))
  | offset :: rest =>
      let port := preferred_port + offset in
      if set_contains_int allocated_ports port
      then scan_ports allocated_ports preferred_port max_attempts rest w
      else
        match is_port_available port w with
        | Ret true => Ret port
        | Ret false => scan_ports allocated_ports preferred_port max_attempts rest w
        | Raise e => Raise e
        | Hang => Hang
        end
  end.

Definition find_available_port_with_lock (preferred_port max_attempts : Z)
           (workspace_root : option string) : M Z :=
  let root := resolve_root workspace_root in
  touch_lock_file root ;;;
  start_time <- time_ms ;;
  acquire_lock_poll poll_fuel root start_time ;;;
  try_finally
    (fun w =>
       (obind (load_allocated_ports root w) (fun allocated_ports =>
          scan_ports allocated_ports preferred_port max_attempts (range max_attempts) w),
        w))
    (flock_unlock root).

(** Legacy entry point. *)
Definition find_available_port (preferred_port max_attempts : Z) : M Z :=
  find_available_port_with_lock preferred_port max_attempts None.

(** ** Registry writer *)

(** Lines 140-146: what the writer starts from. *)
Definition load_ports_data (root : string) (w : world) : pyval :=
  match ports_file (fs w root) with
  | Absent => PDict []
  | Unreadable | Malformed => PDict []
  | Parsed ports_data => ports_data
  end.

(** Lines 149-154, with [time.time()] read off the clock. *)
Definition allocation_record (port : Z) (now_ms : Z) : pyval :=
  PDict [("port", PInt port);
         ("url", PStr ("http://localhost:" ++ str port)%string);
         ("network_url_template", PStr ("http://{network_ip}:" ++ str port)%string);
         ("timestamp", PFloat (Qmake now_ms 1000))].

(** Lines 157-159: [open(temp_file, 'w')] creates or empties the file, and
    until [json.dump] is through and the file closed it holds a strict prefix
    of the document, which is not JSON. *)
Definition write_temp_file (root : string) (v : pyval) : M unit :=
  fun w =>
    if dir_writable (fs w root) then
      let w1 := set_workspace root (with_temp_file Malformed (fs w root)) w in
      if disk_full (fs w root) then (Raise OSError, w1)
      else (Ret tt, set_workspace root (with_temp_file (Parsed v) (fs w1 root)) w1)
    else (Raise OSError, w).

(** Line 162: [temp_file.replace(ports_file)], one rename, of the file that
    [write_temp_file] has just closed, in the directory it was created in,
    onto a registry path in one of the states of [file_state]. *)
Definition replace_temp_file (root : string) : M unit :=
  fun w =>
    let d := fs w root in
    (Ret tt, set_workspace root (with_temp_file Absent (with_ports_file (temp_file d) d)) w).

(** Lines 139-162, the body of the [try]. *)
Definition update_registry (app_name : string) (port : Z) (root : string) : M unit :=
  ports_data <- (fun w => (Ret (load_ports_data root w), w)) ;;
  now <- time_ms ;;
  ports_data' <- lift (setitem_str ports_data app_name (allocation_record port now)) ;;
  write_temp_file root ports_data' ;;;
  replace_temp_file root.

Definition save_app_port (app_name : string) (port : Z)
           (workspace_root : option string) : M unit :=
  let root := resolve_root workspace_root in
  touch_lock_file root ;;;
  flock_blocking root ;;;
  try_finally (update_registry app_name port root) (flock_unlock root).

(** ** Lock-free readers *)

(** Python's [None] is [PNone]. *)
Definition get_app_port (app_name : string) (workspace_root : option string)
           (w : world) : outcome pyval :=
  let root := resolve_root workspace_root in
  match ports_file (fs w root) with
  | Absent => Ret PNone
  | Unreadable | Malformed => Ret PNone
  | Parsed ports_data =>
      obind (contains_str ports_data app_name) (fun present =>
      if present : bool then
        obind (getitem_str ports_data app_name) (fun info => getitem_str info "port")
      else Ret PNone)
  end.

Definition get_all_app_ports (workspace_root : option string) (w : world) : outcome pyval :=
  let root := resolve_root workspace_root in
  match ports_file (fs w root) with
  | Absent => Ret (PDict [])
  | Unreadable | Malformed => Ret (PDict [])
  | Parsed ports_data => Ret ports_data
  end.

(** ** Sample worlds *)

Definition empty_workspace : workspace :=
  mkWorkspace false LockFree Absent Absent true false.

(** Nothing allocated, every port free, nobody holding the lock. *)
Definition idle_world : world :=
  mkWorld (fun _ => empty_workspace) (fun _ => true) 0 [].

Definition world_with (d : workspace) (free : Z -> bool) (now : Z) : world :=
  mkWorld (fun _ => d) free now [].

(** The registry after two applications saved ports 4090 and 4091. *)
Definition two_apps : pyval :=
  PDict [("project-hub", allocation_record 4090 1000);
         ("gsheet", allocation_record 4091 2000)].

Definition two_apps_world : world :=
  world_with (mkWorkspace true LockFree (Parsed two_apps) Absent true false)
             (fun _ => true) 5000.

(** ** Vocabulary of the statements *)

(** The registry files and the OS ports are as before; the sentinel, the lock,
    the clock and the trace may differ. *)
Record registry_untouched (w w' : world) : Prop := mk_registry_untouched {
  ru_ports : forall r, ports_file (fs w' r) = ports_file (fs w r);
  ru_temp : forall r, temp_file (fs w' r) = temp_file (fs w r);
  ru_writable : forall r, dir_writable (fs w' r) = dir_writable (fs w r);
  ru_disk : forall r, disk_full (fs w' r) = disk_full (fs w r);
  ru_free : port_free w' = port_free w
}.

(** Every workspace but the one at [root] is as before. *)
Definition others_untouched (root : string) (w w' : world) : Prop :=
  forall r, r <> root -> fs w' r = fs w r.

(** The sentinel exists or can be created. *)
Definition sentinel_ready (w : world) (root : string) : Prop :=
  lock_file (fs w root) = true \/ dir_writable (fs w root) = true.

(** The lock is free, or its holder lets go in time for the last poll. *)
Definition lock_obtainable (w : world) (root : string) : Prop :=
  held_by_other (lock (fs w root)) (clock w + max_wait_ms + poll_interval_ms) = false.

(** The lock is free, or its holder lets go within the 10 s for which the
    loop goes on polling. *)
Definition lock_free_in_budget (w : world) (root : string) : Prop :=
  held_by_other (lock (fs w root)) (clock w + max_wait_ms) = false.


(** The world after a [touch] that succeeds. *)
Definition touched (root : string) (w : world) : world :=
  if lock_file (fs w root) then w
  else set_workspace root (with_lock_file true (fs w root)) w.

(** The time of the poll that is due once the budget is spent. *)
Definition poll_deadline (start : Z) : Z := start + max_wait_ms + poll_interval_ms.

(** The world in which the loop goes round again after a failed attempt. *)
Definition retried (root : string) (w : world) : world :=
  snd (sleep_ms poll_interval_ms (log (EvFlockNB root (clock w) false) w)).

Definition is_poll (e : event) : bool :=
  match e with EvFlockNB _ _ _ => true | _ => false end.

(** The non-blocking attempts of a trace, latest first. *)
Definition polls (tr : list event) : list event := filter is_poll tr.

(** [n] failed attempts on [root], the first at [t0], one every
    [poll_interval_ms], earliest first. *)
Fixpoint poll_schedule (root : string) (t0 : Z) (n : nat) : list event :=
  match n with
  | O => []
  | S n' => EvFlockNB root t0 false :: poll_schedule root (t0 + poll_interval_ms) n'
  end.



(** A candidate the scan passes over: claimed in the registry, or probed and
    found bound. *)
Definition passed_over (allocated : list pyval) (w : world) (port : Z) : Prop :=
  set_contains_int allocated port = true \/ is_port_available port w = Ret false.

(** A candidate the scan returns: unclaimed and probed free. *)
Definition usable (allocated : list pyval) (w : world) (port : Z) : Prop :=
  set_contains_int allocated port = false /\ is_port_available port w = Ret true.

(** From [w] to [w'] the registry file of [root] kept its content, in the
    final state and in every file-system state recorded on the way. *)
Definition registry_kept (root : string) (w w' : world) : Prop :=
  ports_file (fs w' root) = ports_file (fs w root)
  /\ exists new, trace w' = new ++ trace w
                 /\ forall s, In (EvFs s) new -> ports_file (s root) = ports_file (fs w root).

(** What [update_registry] does to a world in which it succeeds. *)
Record registry_replaced (root : string) (v : pyval) (w w' : world) : Prop :=
  mk_registry_replaced {
  rr_ports : ports_file (fs w' root) = Parsed v;
  rr_temp : temp_file (fs w' root) = Absent;
  rr_lock : lock (fs w' root) = lock (fs w root);
  rr_clock : clock w' = clock w;
  rr_trace : exists s0 s1,
      trace w' = EvFs (fs w') :: EvFs s1 :: EvFs s0 :: trace w
      /\ ports_file (s0 root) = ports_file (fs w root)
      /\ temp_file (s0 root) = Malformed
      /\ ports_file (s1 root) = ports_file (fs w root)
      /\ temp_file (s1 root) = Parsed v
}.

(** The lock held for good by another process, everything else idle. *)
Definition contended_world : world :=
  world_with (mkWorkspace true LockHeldForever Absent Absent true false)
             (fun _ => true) 0.

(** The file is missing, cannot be read, or is not JSON. *)
Definition unloadable (f : file_state) : bool :=
  match f with
  | Parsed _ => false
  | _ => true
  end.

(** An object whose entry has no port: [{"a": {}}]. *)
Definition recordless_world : world :=
  world_with (mkWorkspace true LockFree (Parsed (PDict [("a", PDict [])])) Absent true false)
             (fun _ => true) 0.

(** No registry, and every port bound by some process. *)
Definition all_bound_world : world :=
  world_with (mkWorkspace true LockFree Absent Absent true false) (fun _ => false) 0.

(** A registry written by hand: one port as a float, one as a string:
    [{"a": {"port": 4090.0}, "b": {"port": "4091"}}]. *)
Definition hand_written_world : world :=
  world_with (mkWorkspace true LockFree
                (Parsed (PDict [("a", PDict [("port", PFloat (Qmake 4090 1))]);
                                ("b", PDict [("port", PStr "4091")])]))
                Absent true false)
             (fun _ => true) 0.

(** No sentinel, and a directory in which none can be created. *)
Definition sealed_world : world :=
  world_with (mkWorkspace false LockFree Absent Absent false false) (fun _ => true) 0.

(** The lock held for good by another process, and every port bound. *)
Definition contended_bound_world : world :=
  world_with (mkWorkspace true LockHeldForever Absent Absent true false)
             (fun _ => false) 0.

(** The registry [{"a": {}}], and every port bound by some process. *)
Definition recordless_bound_world : world :=
  world_with (mkWorkspace true LockFree (Parsed (PDict [("a", PDict [])])) Absent true false)
             (fun _ => false) 0.


(** ** Callers *)

(** What one application does at start-up, as the self-test of lines 264-268
    does: allocate, then record. *)
Definition allocate_and_save (app_name : string) (preferred_port max_attempts : Z)
           (workspace_root : option string) : M Z :=
  port <- find_available_port_with_lock preferred_port max_attempts workspace_root ;;
  save_app_port app_name port workspace_root ;;;
  ret port.

(** Applications starting one after the other, all from the same preferred
    port; the ports they got, in order. *)
Fixpoint launch_all (apps : list string) (preferred_port max_attempts : Z)
         (workspace_root : option string) : M (list Z) :=
  match apps with
  | [] => ret []
  | app_name :: rest =>
      port <- allocate_and_save app_name preferred_port max_attempts workspace_root ;;
      ports <- launch_all rest preferred_port max_attempts workspace_root ;;
      ret (port :: ports)
  end.

(** The registry file of [root] holds an object in which [app] has a record
    whose port is [port]. *)
Definition claimed_by (root : string) (w : world) (app : string) (port : Z) : Prop :=
  exists d info,
    ports_file (fs w root) = Parsed (PDict d)
    /\ dict_get app d = Some info
    /\ getitem_str info "port" = Ret (PInt port).

(** The world after the loop has taken the lock at [root]. *)
Definition lock_taken (root : string) (f : filesystem) : filesystem :=
  update_workspace root (with_lock LockHeldBySelf (f root)) f.

(** No file-system state was recorded between the traces [old] and [new]. *)
Definition no_new_snapshot (old new : list event) : Prop :=
  forall s, In (EvFs s) new -> In (EvFs s) old.

(** The registry file holds JSON that is not an object. *)
Definition not_an_object (f : file_state) : bool :=
  match f with
  | Parsed (PDict _) => false
  | Parsed _ => true
  | _ => false
  end.

(** A registry file cut short in the middle of a write. *)
Definition corrupt_world : world :=
  world_with (mkWorkspace true LockFree Malformed Absent true false) (fun _ => true) 0.

(** A registry file holding a JSON array. *)
Definition array_world : world :=
  world_with (mkWorkspace true LockFree (Parsed (PList [])) Absent true false)
             (fun _ => true) 0.

(** The registry of [two_apps_world] on a full disk. *)
Definition full_disk_world : world :=
  world_with (mkWorkspace true LockFree (Parsed two_apps) Absent true true)
             (fun _ => true) 5000.

(** The lock held by another process until 250 ms after the call. *)
Definition briefly_held_world : world :=
  world_with (mkWorkspace true (LockHeldUntil 5250) (Parsed two_apps) Absent true false)
             (fun _ => true) 5000.

(** * Proofs *)

(** ** What an operation leaves alone *)

Lemma registry_untouched_refl w : registry_untouched w w.
Proof. constructor; auto. Qed.

Lemma registry_untouched_trans w1 w2 w3 :
  registry_untouched w1 w2 -> registry_untouched w2 w3 -> registry_untouched w1 w3.
Proof.
  intros [p1 t1 a1 d1 f1] [p2 t2 a2 d2 f2]; constructor; intros.
  - now rewrite p2, p1.
  - now rewrite t2, t1.
  - now rewrite a2, a1.
  - now rewrite d2, d1.
  - congruence.
Qed.

Lemma others_untouched_refl root w : others_untouched root w w.
Proof. intros r _; reflexivity. Qed.

Lemma others_untouched_trans root w1 w2 w3 :
  others_untouched root w1 w2 -> others_untouched root w2 w3 ->
  others_untouched root w1 w3.
Proof. intros H1 H2 r Hr; now rewrite H2, H1. Qed.

Lemma update_workspace_same root d f : update_workspace root d f root = d.
Proof. unfold update_workspace; now rewrite String.eqb_refl. Qed.

Lemma update_workspace_other root d f r : r <> root -> update_workspace root d f r = f r.
Proof.
  intros H; unfold update_workspace.
  destruct (String.eqb_spec r root); [contradiction | reflexivity].
Qed.

Lemma set_lock_untouched root l w : registry_untouched w (set_lock root l w).
Proof.
  constructor; intros; cbn; auto;
    unfold update_workspace; destruct (String.eqb_spec r root); subst; cbn; auto.
Qed.

Lemma set_lock_others root l w : others_untouched root w (set_lock root l w).
Proof. intros r Hr; cbn; now apply update_workspace_other. Qed.

Lemma log_untouched e w : registry_untouched w (log e w).
Proof. constructor; intros; cbn; auto. Qed.

Lemma held_by_other_mono l t t' :
  t <= t' -> held_by_other l t' = true -> held_by_other l t = true.
Proof.
  destruct l; cbn; auto; intros H H'.
  apply Z.ltb_lt in H'; apply Z.ltb_lt; lia.
Qed.

Lemma try_finally_fst {A} (body : M A) fin w :
  fst (try_finally body fin w) = fst (body w).
Proof. unfold try_finally; destruct (body w) as [[a | e |] w']; reflexivity. Qed.

(** *** the sentinel *)

Lemma touch_lock_file_ready root w :
  sentinel_ready w root -> touch_lock_file root w = (Ret tt, touched root w).
Proof.
  intros Hr; unfold touch_lock_file, touched.
  destruct (lock_file (fs w root)) eqn:E; [reflexivity |].
  destruct Hr as [Hr | Hr]; [congruence | now rewrite Hr].
Qed.

Lemma touch_lock_file_blocked root w :
  lock_file (fs w root) = false -> dir_writable (fs w root) = false ->
  touch_lock_file root w = (Raise OSError, w).
Proof. intros H1 H2; unfold touch_lock_file; now rewrite H1, H2. Qed.

Lemma touched_untouched root w : registry_untouched w (touched root w).
Proof.
  unfold touched; destruct (lock_file (fs w root)); [apply registry_untouched_refl |].
  constructor; intros; cbn; auto;
    unfold update_workspace; destruct (String.eqb_spec r root); subst; cbn; auto.
Qed.

Lemma touched_others root w : others_untouched root w (touched root w).
Proof.
  unfold touched; destruct (lock_file (fs w root)); [apply others_untouched_refl |].
  intros r Hr; cbn; now apply update_workspace_other.
Qed.

Lemma touched_lock_file root w : lock_file (fs (touched root w) root) = true.
Proof.
  unfold touched; destruct (lock_file (fs w root)) eqn:E; [exact E |].
  cbn; now rewrite update_workspace_same.
Qed.

Lemma touched_lock root w : lock (fs (touched root w) root) = lock (fs w root).
Proof.
  unfold touched; destruct (lock_file (fs w root)); [reflexivity |].
  cbn; now rewrite update_workspace_same.
Qed.

Lemma touched_clock root w : clock (touched root w) = clock w.
Proof. unfold touched; now destruct (lock_file (fs w root)). Qed.

(** *** the polling loop *)

(** Arithmetic on the clock, with the two constants of the loop unfolded. *)
Ltac budget := unfold poll_deadline, max_wait_ms, poll_interval_ms in *; lia.

Lemma poll_fuel_value : poll_fuel = 102%nat.
Proof. reflexivity. Qed.

Lemma poll_schedule_length root t0 n : List.length (poll_schedule root t0 n) = n.
Proof. revert t0; induction n; intros; cbn; auto. Qed.

Lemma poll_schedule_nth root n : forall t0 i, (i < n)%nat ->
  nth_error (poll_schedule root t0 n) i
  = Some (EvFlockNB root (t0 + poll_interval_ms * Z.of_nat i) false).
Proof.
  induction n as [| n IH]; intros t0 i Hi; [lia |].
  destruct i as [| i]; cbn [poll_schedule nth_error].
  - do 2 f_equal; budget.
  - rewrite IH by lia; do 2 f_equal; budget.
Qed.

Section Polling.

Variable root : string.
Variable start : Z.

Lemma acquire_step_free fuel w :
  held_by_other (lock (fs w root)) (clock w) = false ->
  acquire_lock_poll (S fuel) root start w
  = (Ret tt, set_lock root LockHeldBySelf (log (EvFlockNB root (clock w) true) w)).
Proof.
  intros H; cbn [acquire_lock_poll]; unfold bind, flock_nonblocking.
  now rewrite H.
Qed.

Lemma acquire_step_timeout fuel w :
  held_by_other (lock (fs w root)) (clock w) = true ->
  clock w - start > max_wait_ms ->
  acquire_lock_poll (S fuel) root start w
  = (Raise (RuntimeError timeout_message), log (EvFlockNB root (clock w) false) w).
Proof.
  intros H Ht; cbn [acquire_lock_poll]; unfold bind, flock_nonblocking, time_ms.
  rewrite H; cbn [clock log].
  destruct (Z.gtb_spec (clock w - start) max_wait_ms); [reflexivity | lia].
Qed.

Lemma acquire_step_retry fuel w :
  held_by_other (lock (fs w root)) (clock w) = true ->
  clock w - start <= max_wait_ms ->
  acquire_lock_poll (S fuel) root start w = acquire_lock_poll fuel root start (retried root w).
Proof.
  intros H Ht; cbn [acquire_lock_poll]; unfold bind, flock_nonblocking, time_ms.
  rewrite H; cbn [clock log].
  destruct (Z.gtb_spec (clock w - start) max_wait_ms); [lia | reflexivity].
Qed.

Lemma acquired_now fuel w :
  held_by_other (lock (fs w root)) (clock w) = false ->
  exists w', acquire_lock_poll (S fuel) root start w = (Ret tt, w')
             /\ registry_untouched w w'
             /\ others_untouched root w w'
             /\ lock (fs w' root) = LockHeldBySelf
             /\ lock_file (fs w' root) = lock_file (fs w root).
Proof.
  intros Hnow; rewrite acquire_step_free by assumption.
  eexists; split; [reflexivity |]; repeat apply conj.
  - apply registry_untouched_trans with (log (EvFlockNB root (clock w) true) w);
      [apply log_untouched | apply set_lock_untouched].
  - intros r Hr; cbn; now apply update_workspace_other.
  - cbn; now rewrite update_workspace_same.
  - cbn; now rewrite update_workspace_same.
Qed.

(** With [n] polls left before the one at the poll_deadline start, a lock that is free
    by then is acquired. *)
Lemma acquire_lock_poll_acquires :
  forall n fuel w,
    (n < fuel)%nat ->
    clock w = poll_deadline start - poll_interval_ms * Z.of_nat n ->
    held_by_other (lock (fs w root)) (poll_deadline start) = false ->
    exists w', acquire_lock_poll fuel root start w = (Ret tt, w')
               /\ registry_untouched w w'
               /\ others_untouched root w w'
               /\ lock (fs w' root) = LockHeldBySelf
               /\ lock_file (fs w' root) = lock_file (fs w root).
Proof.
  induction n as [| n IH]; intros fuel w Hf Hc Hd;
    (destruct fuel as [| fuel]; [lia |]);
    (destruct (held_by_other (lock (fs w root)) (clock w)) eqn:Hnow;
     [| now apply acquired_now]).
  - replace (clock w) with (poll_deadline start) in Hnow by budget.
    congruence.
  - rewrite acquire_step_retry by (assumption || budget).
    destruct (IH fuel (retried root w)) as (w' & E & Hu & Ho & Hl & Hlf).
    + lia.
    + unfold retried; cbn [sleep_ms snd clock log]; budget.
    + exact Hd.
    + exists w'; split; [exact E |]; repeat apply conj; auto.
      destruct Hu; constructor; auto.
Qed.

(** With [n] polls left before the one at the poll_deadline start, a lock still held at
    the poll_deadline start makes the loop raise, after [S n] failed attempts. *)
Lemma acquire_lock_poll_times_out :
  forall n fuel w,
    (n < fuel)%nat ->
    clock w = poll_deadline start - poll_interval_ms * Z.of_nat n ->
    held_by_other (lock (fs w root)) (poll_deadline start) = true ->
    exists w', acquire_lock_poll fuel root start w
               = (Raise (RuntimeError timeout_message), w')
               /\ fs w' = fs w
               /\ port_free w' = port_free w
               /\ clock w' = poll_deadline start
               /\ polls (trace w')
                  = rev (poll_schedule root (clock w) (S n)) ++ polls (trace w)
               /\ (forall s, In (EvFs s) (trace w') -> In (EvFs s) (trace w)).
Proof.
  induction n as [| n IH]; intros fuel w Hf Hc Hd;
    (destruct fuel as [| fuel]; [lia |]);
    assert (Hnow : held_by_other (lock (fs w root)) (clock w) = true)
      by (apply held_by_other_mono with (2 := Hd); budget).
  - rewrite acquire_step_timeout by (assumption || budget).
    eexists; split; [reflexivity |]; cbn; repeat apply conj; auto.
    + budget.
    + intros s [H | H]; [discriminate | exact H].
  - rewrite acquire_step_retry by (assumption || budget).
    destruct (IH fuel (retried root w)) as (w' & E & Hfs & Hp & Hck & Hpolls & Hsnap).
    + lia.
    + unfold retried; cbn [sleep_ms snd clock log]; budget.
    + exact Hd.
    + exists w'; split; [exact E |]; repeat apply conj; auto.
      * rewrite Hpolls; unfold retried.
        cbn [sleep_ms snd trace log clock polls filter is_poll poll_schedule rev].
        now rewrite <- !app_assoc.
      * intros s Hs; apply Hsnap in Hs; unfold retried; cbn in Hs.
        destruct Hs as [H | [H | H]]; [discriminate | discriminate | exact H].
Qed.

End Polling.

(** From a fresh start the loop always comes back within its fuel. *)
Lemma acquire_lock_poll_returns root w :
  fst (acquire_lock_poll poll_fuel root (clock w) w) <> Hang.
Proof.
  destruct (held_by_other (lock (fs w root)) (clock w + max_wait_ms + poll_interval_ms))
    eqn:Hd.
  - destruct (acquire_lock_poll_times_out root (clock w) 101 poll_fuel w) as (w' & E & _);
      [rewrite poll_fuel_value; lia | budget | exact Hd |].
    rewrite E; discriminate.
  - destruct (acquire_lock_poll_acquires root (clock w) 101 poll_fuel w) as (w' & E & _);
      [rewrite poll_fuel_value; lia | budget | exact Hd |].
    rewrite E; discriminate.
Qed.

(** *** the scan *)

Lemma is_port_available_ext port w w' :
  port_free w' = port_free w -> is_port_available port w' = is_port_available port w.
Proof. intros H; unfold is_port_available, socket_bind; now rewrite H. Qed.

Lemma scan_ports_ext allocated p n offsets w w' :
  port_free w' = port_free w ->
  scan_ports allocated p n offsets w' = scan_ports allocated p n offsets w.
Proof.
  intros H; induction offsets as [| o rest IH]; cbn [scan_ports]; [reflexivity |].
  now rewrite IH, (is_port_available_ext _ _ _ H).
Qed.

Lemma load_allocated_ports_ext root w w' :
  ports_file (fs w' root) = ports_file (fs w root) ->
  load_allocated_ports root w' = load_allocated_ports root w.
Proof. intros H; unfold load_allocated_ports; now rewrite H. Qed.

Lemma scan_ports_skip allocated p n o rest w :
  passed_over allocated w (p + o) ->
  scan_ports allocated p n (o :: rest) w = scan_ports allocated p n rest w.
Proof.
  intros H; cbn [scan_ports].
  destruct (set_contains_int allocated (p + o)) eqn:E; [reflexivity |].
  destruct H as [H | H]; [congruence | now rewrite H].
Qed.

Lemma scan_ports_take allocated p n o rest w :
  usable allocated w (p + o) ->
  scan_ports allocated p n (o :: rest) w = Ret (p + o).
Proof. intros [H1 H2]; cbn [scan_ports]; now rewrite H1, H2. Qed.

Lemma scan_ports_first_fit allocated p n w k :
  forall len a,
    (a <= k < a + len)%nat ->
    usable allocated w (p + Z.of_nat k) ->
    (forall j, (a <= j < k)%nat -> passed_over allocated w (p + Z.of_nat j)) ->
    scan_ports allocated p n (map Z.of_nat (seq a len)) w = Ret (p + Z.of_nat k).
Proof.
  induction len as [| len IH]; intros a Hk Hu Hbefore; [lia |].
  cbn [seq map].
  destruct (Nat.eq_dec a k) as [-> | Hne].
  - now apply scan_ports_take.
  - rewrite scan_ports_skip by (apply Hbefore; lia).
    apply IH; [lia | assumption | intros j Hj; apply Hbefore; lia].
Qed.

Lemma scan_ports_exhausted allocated p n w :
  forall len a,
    (forall j, (a <= j < a + len)%nat -> passed_over allocated w (p + Z.of_nat j)) ->
    scan_ports allocated p n (map Z.of_nat (seq a len)) w
    = Raise (RuntimeError (exhausted_message p n)).
Proof.
  induction len as [| len IH]; intros a Hall; cbn [seq map]; [reflexivity |].
  rewrite scan_ports_skip by (apply Hall; lia).
  apply IH; intros j Hj; apply Hall; lia.
Qed.

(** *** the whole call *)

(** Once the sentinel is there and the lock is obtained, the call's result is
    that of the scan over the registry as it was on entry. *)
Lemma find_available_port_with_lock_locked p n workspace_root w :
  sentinel_ready w (resolve_root workspace_root) ->
  lock_obtainable w (resolve_root workspace_root) ->
  fst (find_available_port_with_lock p n workspace_root w)
  = obind (load_allocated_ports (resolve_root workspace_root) w)
          (fun allocated => scan_ports allocated p n (range n) w).
Proof.
  intros Hs Hl; unfold find_available_port_with_lock.
  set (root := resolve_root workspace_root) in *.
  unfold bind at 1; rewrite (touch_lock_file_ready _ _ Hs).
  unfold bind at 1, time_ms.
  destruct (acquire_lock_poll_acquires root (clock (touched root w)) 101 poll_fuel
              (touched root w)) as (w2 & E & Hu & _).
  - rewrite poll_fuel_value; lia.
  - budget.
  - rewrite touched_lock, touched_clock; exact Hl.
  - unfold bind; rewrite E, try_finally_fst; cbn [fst].
    assert (Hu' : registry_untouched w w2)
      by (eapply registry_untouched_trans; [apply touched_untouched | exact Hu]).
    rewrite (load_allocated_ports_ext root w w2) by apply Hu'.
    destruct (load_allocated_ports root w); cbn [obind]; auto.
    apply scan_ports_ext, Hu'.
Qed.

Lemma range_offsets (n : Z) : range n = map Z.of_nat (seq 0 (Z.to_nat n)).
Proof. reflexivity. Qed.

Lemma first_fit_result p n workspace_root w allocated offset :
  sentinel_ready w (resolve_root workspace_root) ->
  lock_obtainable w (resolve_root workspace_root) ->
  load_allocated_ports (resolve_root workspace_root) w = Ret allocated ->
  0 <= offset < n ->
  usable allocated w (p + offset) ->
  (forall j, 0 <= j < offset -> passed_over allocated w (p + j)) ->
  fst (find_available_port_with_lock p n workspace_root w) = Ret (p + offset).
Proof.
  intros Hs Hl Hload Ho Hu Hbefore.
  rewrite find_available_port_with_lock_locked, Hload by assumption; cbn [obind].
  rewrite range_offsets, <- (Z2Nat.id offset) by lia.
  apply scan_ports_first_fit.
  - lia.
  - now rewrite Z2Nat.id by lia.
  - intros j Hj; apply Hbefore; lia.
Qed.

(** A lock that is let go within the budget is let go by the last poll. *)
Lemma lock_free_in_budget_obtainable w root :
  lock_free_in_budget w root -> lock_obtainable w root.
Proof.
  unfold lock_free_in_budget, lock_obtainable; intros H.
  destruct (held_by_other (lock (fs w root)) (clock w + max_wait_ms + poll_interval_ms))
    eqn:E; [| reflexivity].
  rewrite <- H; symmetry.
  apply held_by_other_mono with (2 := E); budget.
Qed.

(** C1, as amended: when the sentinel is there or can be created, the lock is
    free or let go within the 10 s budget, and the allocated-port set can be
    built from the registry file, [find_available_port_with_lock] returns the
    smallest candidate [preferred_port + offset], [0 <= offset < max_attempts],
    that is not in the set and that [is_port_available] reports [True],
    provided every candidate before it is in the set or is reported [False];
    in particular [preferred_port] itself when nothing conflicts, and
    [preferred_port + 2] when the registry holds [preferred_port] and
    [preferred_port + 1] and the third candidate is usable. *)
Theorem find_available_port_with_lock_first_fit :
  forall (preferred_port max_attempts : Z) (workspace_root : option string)
         (w : world) (allocated : list pyval),
    sentinel_ready w (resolve_root workspace_root) ->
    lock_free_in_budget w (resolve_root workspace_root) ->
    load_allocated_ports (resolve_root workspace_root) w = Ret allocated ->
    (forall offset,
        0 <= offset < max_attempts ->
        usable allocated w (preferred_port + offset) ->
        (forall j, 0 <= j < offset -> passed_over allocated w (preferred_port + j)) ->
        fst (find_available_port_with_lock preferred_port max_attempts workspace_root w)
        = Ret (preferred_port + offset))
    /\ (0 < max_attempts ->
        usable allocated w preferred_port ->
        fst (find_available_port_with_lock preferred_port max_attempts workspace_root w)
        = Ret preferred_port)
    /\ (2 < max_attempts ->
        set_contains_int allocated preferred_port = true ->
        set_contains_int allocated (preferred_port + 1) = true ->
        usable allocated w (preferred_port + 2) ->
        fst (find_available_port_with_lock preferred_port max_attempts workspace_root w)
        = Ret (preferred_port + 2)).
Proof.
  intros p n root w allocated Hs Hfree Hload.
  pose proof (lock_free_in_budget_obtainable _ _ Hfree) as Hl.
  repeat apply conj.
  - intros offset; now apply first_fit_result.
  - intros Hn Hu.
    rewrite <- (Z.add_0_r p) at 2.
    apply first_fit_result with allocated; auto; try lia.
    now rewrite Z.add_0_r.
  - intros Hn H0 H1 Hu.
    apply first_fit_result with allocated; auto; try lia.
    intros j Hj; left.
    assert (Hc : j = 0 \/ j = 1) by lia.
    destruct Hc as [-> | ->]; [now rewrite Z.add_0_r | assumption].
Qed.

(** C1, as stated, fails.  From preferred port -1 with two attempts the
    candidates are -1 and 0; in the idle world port 0 is unclaimed and probed
    free and -1 is not, yet the call raises [OverflowError] at -1 and never
    gets to 0.  With the registry [{"a": {}}] the allocated-port set cannot be
    built: the call raises [KeyError] although 4090 is probed free.  And with
    4090 unclaimed and probed free the call raises the timeout error when the
    lock is held for good, and [OSError] when the sentinel cannot be
    created. *)
Lemma first_fit_fails_on_bad_candidate_or_registry :
  (load_allocated_ports "tools" idle_world = Ret []
   /\ usable [] idle_world (-1 + 1)
   /\ ~ usable [] idle_world (-1 + 0)
   /\ fst (find_available_port_with_lock (-1) 2 None idle_world) = Raise OverflowError
   /\ fst (find_available_port_with_lock (-1) 2 None idle_world) <> Ret (-1 + 1))
  /\ (is_port_available 4090 recordless_world = Ret true
      /\ fst (find_available_port_with_lock 4090 100 None recordless_world) = Raise KeyError
      /\ forall port,
           fst (find_available_port_with_lock 4090 100 None recordless_world) <> Ret port)
  /\ (usable [] contended_world 4090
      /\ fst (find_available_port_with_lock 4090 100 None contended_world)
         = Raise (RuntimeError "Timeout waiting for port allocation lock"))
  /\ (usable [] sealed_world 4090
      /\ fst (find_available_port_with_lock 4090 100 None sealed_world) = Raise OSError).
Proof.
  assert (E1 : fst (find_available_port_with_lock (-1) 2 None idle_world)
               = Raise OverflowError) by (vm_compute; reflexivity).
  assert (E2 : fst (find_available_port_with_lock 4090 100 None recordless_world)
               = Raise KeyError) by (vm_compute; reflexivity).
  split; [| split; [| split]].
  - split; [reflexivity |]; split; [split; reflexivity |].
    split; [intros [_ H]; discriminate |].
    split; [exact E1 | rewrite E1; discriminate].
  - split; [reflexivity |]; split; [exact E2 |].
    intros port; rewrite E2; discriminate.
  - split; [split; reflexivity | vm_compute; reflexivity].
  - split; [split; reflexivity | vm_compute; reflexivity].
Qed.

(** C2, as amended: under the entry conditions of C1, when every candidate is
    in the registry's allocated-port set or is reported [False] by
    [is_port_available], the call raises the allocation error, whose message
    carries the preferred port and the number of attempts; it returns no
    port. *)
Theorem find_available_port_with_lock_exhausted :
  forall (preferred_port max_attempts : Z) (workspace_root : option string)
         (w : world) (allocated : list pyval),
    sentinel_ready w (resolve_root workspace_root) ->
    lock_free_in_budget w (resolve_root workspace_root) ->
    load_allocated_ports (resolve_root workspace_root) w = Ret allocated ->
    (forall offset, 0 <= offset < max_attempts ->
                    passed_over allocated w (preferred_port + offset)) ->
    fst (find_available_port_with_lock preferred_port max_attempts workspace_root w)
    = Raise (RuntimeError
               ("Could not find available port starting from " ++ str preferred_port
                ++ " after " ++ str max_attempts ++ " attempts")%string).
Proof.
  intros p n root w allocated Hs Hfree Hload Hall.
  pose proof (lock_free_in_budget_obtainable _ _ Hfree) as Hl.
  rewrite find_available_port_with_lock_locked, Hload by assumption; cbn [obind].
  rewrite range_offsets.
  apply scan_ports_exhausted.
  intros j Hj; apply Hall.
  destruct (Z_lt_le_dec 0 n); [rewrite <- (Z2Nat.id n) by lia; lia |].
  replace (Z.to_nat n) with 0%nat in Hj by lia; lia.
Qed.

(** C2, as stated, fails.  With every port bound and nothing in the registry,
    none of the candidates 65535, 65536, 65537 can be bound, yet the call
    raises [OverflowError] at 65536, not the allocation error.  With the
    registry [{"a": {}}] and every port bound it raises [KeyError], and with
    the lock held for good and every port bound it raises the timeout
    error. *)
Lemma exhausted_scan_raises_another_error :
  (forall offset, 0 <= offset < 3 ->
                  is_port_available (65535 + offset) all_bound_world <> Ret true)
  /\ fst (find_available_port_with_lock 65535 3 None all_bound_world)
     = Raise OverflowError
  /\ fst (find_available_port_with_lock 65535 3 None all_bound_world)
     <> Raise (RuntimeError
                 "Could not find available port starting from 65535 after 3 attempts")
  /\ is_port_available 4090 recordless_bound_world = Ret false
  /\ fst (find_available_port_with_lock 4090 1 None recordless_bound_world)
     = Raise KeyError
  /\ is_port_available 4090 contended_bound_world = Ret false
  /\ fst (find_available_port_with_lock 4090 1 None contended_bound_world)
     = Raise (RuntimeError "Timeout waiting for port allocation lock").
Proof.
  assert (E : fst (find_available_port_with_lock 65535 3 None all_bound_world)
              = Raise OverflowError) by (vm_compute; reflexivity).
  split.
  - intros offset Ho.
    assert (Hc : offset = 0 \/ offset = 1 \/ offset = 2) by lia.
    destruct Hc as [-> | [-> | ->]]; discriminate.
  - split; [exact E |]; split; [rewrite E; discriminate |].
    split; [reflexivity |]; split; [vm_compute; reflexivity |].
    split; [reflexivity | vm_compute; reflexivity].
Qed.

(** *** the attempts of a call that times out *)






(** C10: the legacy entry point is the locked allocator at the default
    workspace root, in every world. *)
Theorem find_available_port_legacy :
  forall (preferred_port max_attempts : Z) (w : world),
    find_available_port preferred_port max_attempts w
    = find_available_port_with_lock preferred_port max_attempts None w.
Proof. reflexivity. Qed.

(** ** The writer, step by step *)

Lemma registry_kept_refl root w : registry_kept root w w.
Proof. split; [reflexivity |]. exists []; split; [reflexivity | intros s []]. Qed.

Lemma registry_kept_trans root w1 w2 w3 :
  registry_kept root w1 w2 -> registry_kept root w2 w3 -> registry_kept root w1 w3.
Proof.
  intros [E1 (n1 & T1 & S1)] [E2 (n2 & T2 & S2)]; split; [congruence |].
  exists (n2 ++ n1); split; [now rewrite T2, T1, app_assoc |].
  intros s Hs; apply in_app_or in Hs; destruct Hs as [Hs | Hs].
  - rewrite <- E1; now apply S2.
  - now apply S1.
Qed.

Lemma touched_kept root r w : registry_kept r w (touched root w).
Proof.
  unfold touched; destruct (lock_file (fs w root)); [apply registry_kept_refl |].
  assert (E : ports_file (update_workspace root (with_lock_file true (fs w root)) (fs w) r)
              = ports_file (fs w r))
    by (unfold update_workspace; destruct (String.eqb_spec r root); subst; reflexivity).
  split; [exact E |].
  eexists [_]; split; [reflexivity |].
  intros s [H | []]; inversion H; subst; exact E.
Qed.

Lemma set_lock_kept root r l w : registry_kept r w (set_lock root l w).
Proof.
  split.
  - cbn; unfold update_workspace; destruct (String.eqb_spec r root); subst; reflexivity.
  - exists []; split; [reflexivity | intros s []].
Qed.

Lemma log_kept r e w :
  (forall s, e <> EvFs s) -> registry_kept r w (log e w).
Proof.
  intros He; split; [reflexivity |].
  exists [e]; split; [reflexivity |].
  intros s [H | []]; now apply He in H.
Qed.

Lemma flock_unlock_kept root r w : registry_kept r w (flock_unlock root w).
Proof.
  unfold flock_unlock.
  eapply registry_kept_trans; [apply log_kept | apply set_lock_kept]; discriminate.
Qed.

(** [flock] returns with the lock held, or never returns. *)
Lemma flock_blocking_cases root w :
  (lock (fs w root) = LockHeldForever /\ flock_blocking root w = (Hang, w))
  \/ (lock (fs w root) <> LockHeldForever
      /\ exists w2, flock_blocking root w = (Ret tt, w2)
                    /\ lock (fs w2 root) = LockHeldBySelf
                    /\ clock w <= clock w2
                    /\ registry_untouched w w2
                    /\ forall r, registry_kept r w w2).
Proof.
  unfold flock_blocking; destruct (lock (fs w root)) eqn:E.
  3: left; split; reflexivity.
  all: right; split; [discriminate |]; eexists; split; [reflexivity |];
    repeat apply conj.
  all: try (cbn; now rewrite update_workspace_same).
  all: try (cbn [clock set_lock log]; lia).
  all: try (constructor; intros; cbn; auto;
            unfold update_workspace; destruct (String.eqb_spec r root);
            subst; cbn; auto; fail).
  all: intros r; split;
    [ cbn; unfold update_workspace; destruct (String.eqb_spec r root); subst; reflexivity
    | eexists [_]; split; [reflexivity | intros s [H | []]; discriminate] ].
Qed.

Lemma update_registry_cases app port root w :
  (exists e, fst (update_registry app port root w) = Raise e
             /\ registry_kept root w (snd (update_registry app port root w)))
  \/ (exists d, load_ports_data root w = PDict d
                /\ dir_writable (fs w root) = true
                /\ disk_full (fs w root) = false
                /\ fst (update_registry app port root w) = Ret tt
                /\ registry_replaced root
                     (PDict (dict_set app (allocation_record port (clock w)) d))
                     w (snd (update_registry app port root w))).
Proof.
  unfold update_registry, bind, time_ms, lift.
  destruct (load_ports_data root w) eqn:Hload; cbn [setitem_str].
  1-7: left; eexists; split; [reflexivity | apply registry_kept_refl].
  unfold write_temp_file.
  destruct (dir_writable (fs w root)) eqn:Hw.
  2: left; eexists; split; [reflexivity | apply registry_kept_refl].
  destruct (disk_full (fs w root)) eqn:Hd.
  - left; eexists; split; [reflexivity |]; cbn [snd]; split.
    + cbn; now rewrite update_workspace_same.
    + eexists [_]; split; [reflexivity |].
      intros s [H | []]; inversion H; subst.
      now rewrite update_workspace_same.
  - right; exists d; repeat apply conj; auto.
    unfold replace_temp_file; cbn [fst snd]; constructor.
    + cbn; now rewrite !update_workspace_same.
    + cbn; now rewrite !update_workspace_same.
    + cbn; now rewrite !update_workspace_same.
    + reflexivity.
    + do 2 eexists; split; [reflexivity |]; cbn.
      now rewrite !update_workspace_same.
Qed.

Lemma load_ports_data_ext root w w' :
  ports_file (fs w' root) = ports_file (fs w root) ->
  load_ports_data root w' = load_ports_data root w.
Proof. intros H; unfold load_ports_data; now rewrite H. Qed.

(** Every run of [save_app_port]: either it does not return normally and the
    registry file never changed, or it went through the lock, replaced the
    registry and unlocked. *)
Lemma save_app_port_cases app port workspace_root w :
  (fst (save_app_port app port workspace_root w) <> Ret tt
   /\ registry_kept (resolve_root workspace_root) w
                    (snd (save_app_port app port workspace_root w)))
  \/ (fst (save_app_port app port workspace_root w) = Ret tt
      /\ exists d w2 w3,
           load_ports_data (resolve_root workspace_root) w = PDict d
           /\ registry_kept (resolve_root workspace_root) w w2
           /\ clock w <= clock w2
           /\ registry_replaced (resolve_root workspace_root)
                (PDict (dict_set app (allocation_record port (clock w2)) d)) w2 w3
           /\ snd (save_app_port app port workspace_root w)
              = flock_unlock (resolve_root workspace_root) w3).
Proof.
  unfold save_app_port.
  set (root := resolve_root workspace_root).
  assert (Hs : sentinel_ready w root
               \/ (lock_file (fs w root) = false /\ dir_writable (fs w root) = false)).
  { unfold sentinel_ready.
    destruct (lock_file (fs w root)), (dir_writable (fs w root)); auto. }
  unfold bind; destruct Hs as [Hs | [H1 H2]].
  2: { rewrite touch_lock_file_blocked by assumption; left; split;
       [discriminate | apply registry_kept_refl]. }
  rewrite touch_lock_file_ready by assumption.
  destruct (flock_blocking_cases root (touched root w))
    as [[_ E] | [_ (w2 & E & Hself & Hck & Hu & Hk)]]; rewrite E.
  { left; split; [discriminate | apply touched_kept]. }
  assert (Hk2 : registry_kept root w w2)
    by (eapply registry_kept_trans; [apply touched_kept | apply Hk]).
  rewrite touched_clock in Hck.
  unfold try_finally.
  destruct (update_registry_cases app port root w2)
    as [(e & Hr & Hkept) | (d & Hload & _ & _ & Hr & Hrep)];
    destruct (update_registry app port root w2) as [o w3]; cbn [fst snd] in *; subst o.
  - left; split; [discriminate |].
    eapply registry_kept_trans; [exact Hk2 |].
    eapply registry_kept_trans; [exact Hkept | apply flock_unlock_kept].
  - right; split; [reflexivity |].
    exists d, w2, w3.
    split; [| split; [exact Hk2 | split; [exact Hck | split; [exact Hrep | reflexivity]]]].
    rewrite <- Hload; symmetry; apply load_ports_data_ext, Hk2.
Qed.

(** ** dict lemmas *)

Lemma dict_get_set_same k v d : dict_get k (dict_set k v d) = Some v.
Proof.
  induction d as [| [k' v'] rest IH]; cbn.
  - now rewrite String.eqb_refl.
  - destruct (String.eqb_spec k k') as [-> | Hne]; cbn.
    + now rewrite String.eqb_refl.
    + destruct (String.eqb_spec k k'); [contradiction | exact IH].
Qed.

Lemma dict_get_set_other k k' v d :
  k' <> k -> dict_get k' (dict_set k v d) = dict_get k' d.
Proof.
  intros Hne; induction d as [| [k0 v0] rest IH]; cbn.
  - destruct (String.eqb_spec k' k); [contradiction | reflexivity].
  - destruct (String.eqb_spec k k0) as [-> | Hk]; cbn.
    + destruct (String.eqb_spec k' k0); [contradiction | reflexivity].
    + destruct (String.eqb_spec k' k0); [reflexivity | exact IH].
Qed.

Lemma dict_mem_in k d : dict_mem k d = true <-> In k (dict_keys d).
Proof.
  unfold dict_mem, dict_keys; induction d as [| [k' v'] rest IH]; cbn.
  - split; [discriminate | intros []].
  - destruct (String.eqb_spec k k') as [-> | Hne].
    + split; auto.
    + rewrite IH; split; [auto | intros [H | H]; [congruence | exact H]].
Qed.

Lemma dict_mem_not_in k d : dict_mem k d = false <-> ~ In k (dict_keys d).
Proof.
  rewrite <- dict_mem_in; destruct (dict_mem k d); split; congruence.
Qed.

Lemma dict_keys_set k v d :
  dict_keys (dict_set k v d)
  = if dict_mem k d then dict_keys d else dict_keys d ++ [k].
Proof.
  unfold dict_mem, dict_keys; induction d as [| [k' v'] rest IH]; cbn; [reflexivity |].
  destruct (String.eqb_spec k k') as [-> | Hne]; cbn; [reflexivity |].
  rewrite IH; now destruct (dict_get k rest).
Qed.

Lemma dict_set_nodup k v d : NoDup (dict_keys d) -> NoDup (dict_keys (dict_set k v d)).
Proof.
  intros H; rewrite dict_keys_set.
  destruct (dict_mem k d) eqn:E; [exact H |].
  apply dict_mem_not_in in E.
  apply NoDup_app; [exact H | repeat constructor; intros [] | ].
  intros a Ha [<- | []]; contradiction.
Qed.

Lemma dict_set_one_record k v d :
  NoDup (dict_keys d) -> count_occ string_dec (dict_keys (dict_set k v d)) k = 1%nat.
Proof.
  intros H; apply NoDup_count_occ'.
  - now apply dict_set_nodup.
  - apply dict_mem_in; unfold dict_mem; now rewrite dict_get_set_same.
Qed.

(** ** The readers look at the registry file only *)

Lemma get_app_port_ext app workspace_root w w' :
  ports_file (fs w' (resolve_root workspace_root))
  = ports_file (fs w (resolve_root workspace_root)) ->
  get_app_port app workspace_root w' = get_app_port app workspace_root w.
Proof. intros H; unfold get_app_port; now rewrite H. Qed.

Lemma get_all_app_ports_ext workspace_root w w' :
  ports_file (fs w' (resolve_root workspace_root))
  = ports_file (fs w (resolve_root workspace_root)) ->
  get_all_app_ports workspace_root w' = get_all_app_ports workspace_root w.
Proof. intros H; unfold get_all_app_ports; now rewrite H. Qed.

(** After a save that returned, the registry file holds the loaded registry
    with the record of [app] set. *)
Lemma save_app_port_returns app port workspace_root w w' :
  save_app_port app port workspace_root w = (Ret tt, w') ->
  exists d now,
    load_ports_data (resolve_root workspace_root) w = PDict d
    /\ clock w <= now
    /\ ports_file (fs w' (resolve_root workspace_root))
       = Parsed (PDict (dict_set app (allocation_record port now) d))
    /\ temp_file (fs w' (resolve_root workspace_root)) = Absent
    /\ lock (fs w' (resolve_root workspace_root)) = LockFree.
Proof.
  intros E.
  destruct (save_app_port_cases app port workspace_root w)
    as [[Hne _] | [_ (d & w2 & w3 & Hload & _ & Hck & Hrep & Hw')]];
    rewrite E in *; cbn [fst snd] in *; [congruence |].
  exists d, (clock w2); subst w'; destruct Hrep as [Hp Ht _ _ _].
  repeat apply conj; auto; cbn; now rewrite update_workspace_same.
Qed.

(** C5: after [save_app_port app port] has returned, [get_app_port app]
    returns [port], and the record of [app] in the result of
    [get_all_app_ports] has that port, the localhost URL and the network URL
    template built from it. *)
Theorem save_then_load_round_trip :
  forall (app : string) (port : Z) (workspace_root : option string) (w w' : world),
    save_app_port app port workspace_root w = (Ret tt, w') ->
    get_app_port app workspace_root w' = Ret (PInt port)
    /\ exists registry info,
         get_all_app_ports workspace_root w' = Ret (PDict registry)
         /\ dict_get app registry = Some (PDict info)
         /\ dict_get "port" info = Some (PInt port)
         /\ dict_get "url" info = Some (PStr ("http://localhost:" ++ str port)%string)
         /\ dict_get "network_url_template" info
            = Some (PStr ("http://{network_ip}:" ++ str port)%string).
Proof.
  intros app port workspace_root w w' E.
  destruct (save_app_port_returns _ _ _ _ _ E) as (d & now & _ & _ & Hp & _).
  split.
  - unfold get_app_port; rewrite Hp; cbn [contains_str obind].
    unfold dict_mem; rewrite dict_get_set_same; cbn [getitem_str obind].
    now rewrite dict_get_set_same.
  - eexists; eexists; split; [unfold get_all_app_ports; rewrite Hp; reflexivity |].
    split; [apply dict_get_set_same |].
    repeat apply conj; reflexivity.
Qed.

(** C8: a save that returned changed the record of [app] and nothing else:
    [app] now has the record built from [port] and the time of the save,
    whatever it had before; every other name has the record it had; the names
    are in the order they were, with [app] added last if it was new; and each
    name, [app] included, has one record. *)
Theorem save_app_port_frame :
  forall (app : string) (port : Z) (workspace_root : option string) (w w' : world)
         (d : pydict),
    save_app_port app port workspace_root w = (Ret tt, w') ->
    load_ports_data (resolve_root workspace_root) w = PDict d ->
    NoDup (dict_keys d) ->
    exists d' now,
      ports_file (fs w' (resolve_root workspace_root)) = Parsed (PDict d')
      /\ clock w <= now
      /\ dict_get app d' = Some (allocation_record port now)
      /\ (forall other, other <> app -> dict_get other d' = dict_get other d)
      /\ dict_keys d' = (if dict_mem app d then dict_keys d else dict_keys d ++ [app])
      /\ NoDup (dict_keys d')
      /\ count_occ string_dec (dict_keys d') app = 1%nat.
Proof.
  intros app port workspace_root w w' d E Hload Hnd.
  destruct (save_app_port_returns _ _ _ _ _ E) as (d0 & now & Hload' & Hnow & Hp & _).
  assert (d0 = d) by congruence; subst d0.
  eexists; exists now; split; [exact Hp |]; split; [exact Hnow |].
  split; [apply dict_get_set_same |].
  split; [intros other Hne; now apply dict_get_set_other |].
  split; [apply dict_keys_set |].
  split; [now apply dict_set_nodup | now apply dict_set_one_record].
Qed.

(** ** Atomicity of the save *)

(** C6: [save_app_port] completes the new registry in the temporary file and
    then renames it over the registry file in one step: in every file-system
    state the call goes through, the registry file holds what it held before
    the call or what it holds after it, so a reader running in any of these
    states gets the answer it would get before or after the call; a call that
    does not return normally leaves the registry file as it was. *)
Theorem save_app_port_atomic :
  forall (app : string) (port : Z) (workspace_root : option string) (w : world),
    exists new,
      trace (snd (save_app_port app port workspace_root w)) = new ++ trace w
      /\ (forall s, In (EvFs s) new ->
            ports_file (s (resolve_root workspace_root))
            = ports_file (fs w (resolve_root workspace_root))
            \/ ports_file (s (resolve_root workspace_root))
               = ports_file (fs (snd (save_app_port app port workspace_root w))
                                (resolve_root workspace_root)))
      /\ (forall s reader name, In (EvFs s) new -> fs reader = s ->
            (get_all_app_ports workspace_root reader = get_all_app_ports workspace_root w
             \/ get_all_app_ports workspace_root reader
                = get_all_app_ports workspace_root
                    (snd (save_app_port app port workspace_root w)))
            /\ (get_app_port name workspace_root reader
                = get_app_port name workspace_root w
                \/ get_app_port name workspace_root reader
                   = get_app_port name workspace_root
                       (snd (save_app_port app port workspace_root w))))
      /\ (fst (save_app_port app port workspace_root w) = Ret tt ->
          exists v s1 s2 before after,
            new = after ++ EvFs s2 :: EvFs s1 :: before
            /\ ports_file (s1 (resolve_root workspace_root))
               = ports_file (fs w (resolve_root workspace_root))
            /\ temp_file (s1 (resolve_root workspace_root)) = Parsed v
            /\ ports_file (s2 (resolve_root workspace_root)) = Parsed v
            /\ temp_file (s2 (resolve_root workspace_root)) = Absent
            /\ (forall s, In (EvFs s) before ->
                  ports_file (s (resolve_root workspace_root))
                  = ports_file (fs w (resolve_root workspace_root)))
            /\ (forall s, In (EvFs s) after ->
                  ports_file (s (resolve_root workspace_root)) = Parsed v)
            /\ ports_file (fs (snd (save_app_port app port workspace_root w))
                              (resolve_root workspace_root)) = Parsed v)
      /\ (fst (save_app_port app port workspace_root w) <> Ret tt ->
          ports_file (fs (snd (save_app_port app port workspace_root w))
                         (resolve_root workspace_root))
          = ports_file (fs w (resolve_root workspace_root))).
Proof.
  intros app port workspace_root w.
  pose proof (save_app_port_cases app port workspace_root w) as Hcases.
  pose proof (get_all_app_ports_ext workspace_root) as Hall_ext.
  pose proof (fun name => get_app_port_ext name workspace_root) as Hone_ext.
  remember (resolve_root workspace_root) as root eqn:Hroot.
  assert (Hreaders : forall (P Q : file_state) reader name w1 w2,
             ports_file (fs w1 root) = P -> ports_file (fs w2 root) = Q ->
             ports_file (fs reader root) = P \/ ports_file (fs reader root) = Q ->
             (get_all_app_ports workspace_root reader = get_all_app_ports workspace_root w1
              \/ get_all_app_ports workspace_root reader
                 = get_all_app_ports workspace_root w2)
             /\ (get_app_port name workspace_root reader
                 = get_app_port name workspace_root w1
                 \/ get_app_port name workspace_root reader
                    = get_app_port name workspace_root w2)).
  { intros P Q reader name w1 w2 H1 H2 [H | H]; split;
      ((left; (apply Hall_ext || apply Hone_ext); congruence)
       || (right; (apply Hall_ext || apply Hone_ext); congruence)). }
  destruct Hcases
    as [[Hne [Hfin (new & T & S)]]
       | [Hret (d & w2 & w3 & Hload & [E2 (n2 & T2 & S2)] & Hck & Hrep & Hw')]].
  - exists new; split; [exact T |].
    split; [intros s Hs; left; now apply S |].
    split; [| split; [congruence | intros _; exact Hfin]].
    intros s reader name Hs <-.
    eapply Hreaders; [reflexivity | reflexivity | left; now apply S].
  - destruct Hrep as [Hp Ht _ _ (s0 & s1 & T3 & Hs0p & Hs0t & Hs1p & Hs1t)].
    set (v := PDict (dict_set app (allocation_record port (clock w2)) d)) in *.
    assert (Hfinal : ports_file (fs (snd (save_app_port app port workspace_root w)) root)
                     = Parsed v).
    { rewrite Hw'; cbn; now rewrite update_workspace_same. }
    assert (Hsnap : forall s, In (EvFs s) (EvFs s0 :: n2) ->
                              ports_file (s root) = ports_file (fs w root)).
    { intros s [H | H]; [inversion H; subst; congruence | now apply S2]. }
    exists ([EvUnlock root] ++ EvFs (fs w3) :: EvFs s1 :: EvFs s0 :: n2).
    assert (Hall : forall s,
               In (EvFs s) ([EvUnlock root] ++ EvFs (fs w3) :: EvFs s1 :: EvFs s0 :: n2) ->
               ports_file (s root) = ports_file (fs w root)
               \/ ports_file (s root) = Parsed v).
    { intros s [H | [H | [H | H]]].
      - discriminate.
      - inversion H; subst; now right.
      - inversion H; subst; left; congruence.
      - left; now apply Hsnap. }
    split; [rewrite Hw'; cbn; now rewrite T3, T2 |].
    split; [intros s Hs; rewrite Hfinal; now apply Hall |].
    split; [| split; [| congruence]].
    + intros s reader name Hs <-.
      eapply Hreaders; [reflexivity | exact Hfinal | now apply Hall].
    + intros _; exists v, s1, (fs w3), (EvFs s0 :: n2), [EvUnlock root].
      repeat apply conj; auto; try congruence.
      intros s [H | []]; discriminate.
Qed.

(** ** Waiting for the lock *)

Lemma collect_ports_returns infos : collect_ports infos <> Hang.
Proof.
  induction infos as [| info rest IH]; cbn; [discriminate |].
  destruct (getitem_str info "port") as [p | e |] eqn:E; cbn; try discriminate.
  - destruct (hashable p); [| discriminate].
    destruct (collect_ports rest); cbn; [discriminate | discriminate | congruence].
  - destruct info; cbn in E; try discriminate.
    destruct (dict_get "port" d); discriminate.
Qed.

Lemma load_allocated_ports_returns root w : load_allocated_ports root w <> Hang.
Proof.
  unfold load_allocated_ports.
  destruct (ports_file (fs w root)) as [| | | v]; try discriminate.
  destruct v; cbn; try discriminate; apply collect_ports_returns.
Qed.

Lemma scan_ports_returns allocated p n offsets w :
  scan_ports allocated p n offsets w <> Hang.
Proof.
  induction offsets as [| o rest IH]; cbn [scan_ports]; [discriminate |].
  destruct (set_contains_int allocated (p + o)); [exact IH |].
  unfold is_port_available.
  destruct (socket_bind w (p + o)); [discriminate | exact IH | discriminate].
Qed.

(** The allocator always comes back: with a port, or with an exception. *)
Lemma find_available_port_with_lock_returns p n workspace_root w :
  fst (find_available_port_with_lock p n workspace_root w) <> Hang.
Proof.
  remember (resolve_root workspace_root) as root eqn:Hroot.
  destruct (lock_file (fs w root)) eqn:Hlf, (dir_writable (fs w root)) eqn:Hdw.
  4: { unfold find_available_port_with_lock, bind; rewrite <- Hroot.
       rewrite touch_lock_file_blocked by assumption; discriminate. }
  all: assert (Hs : sentinel_ready w root) by (unfold sentinel_ready; auto).
  all: destruct (held_by_other (lock (fs w root))
                   (clock w + max_wait_ms + poll_interval_ms)) eqn:Hheld.
  all: try (rewrite find_available_port_with_lock_locked
              by (rewrite <- Hroot; assumption);
            rewrite <- Hroot;
            pose proof (load_allocated_ports_returns root w) as Hl;
            destruct (load_allocated_ports root w); cbn [obind];
            [apply scan_ports_returns | discriminate | congruence]).
  all: unfold find_available_port_with_lock, bind, time_ms; rewrite <- Hroot;
    rewrite touch_lock_file_ready by assumption;
    destruct (acquire_lock_poll_times_out root (clock (touched root w)) 101 poll_fuel
                (touched root w)) as (w' & E & _);
    [ rewrite poll_fuel_value; lia
    | budget
    | now rewrite touched_lock, touched_clock
    | rewrite E; discriminate ].
Qed.

(** A writer that finds the lock held for good never comes back. *)
Lemma save_app_port_blocks app port workspace_root w :
  sentinel_ready w (resolve_root workspace_root) ->
  lock (fs w (resolve_root workspace_root)) = LockHeldForever ->
  fst (save_app_port app port workspace_root w) = Hang.
Proof.
  intros Hs Hl; unfold save_app_port, bind.
  rewrite touch_lock_file_ready by assumption.
  unfold flock_blocking; now rewrite touched_lock, Hl.
Qed.

(** C7: in a world where another process holds the lock for good,
    [save_app_port] takes the lock with a blocking [flock] and never returns,
    while [find_available_port_with_lock] polls and raises the timeout
    error. *)
Theorem save_app_port_waits_without_bound :
  fst (save_app_port "project-hub" 4090 None contended_world) = Hang
  /\ fst (find_available_port_with_lock 4090 100 None contended_world)
     = Raise (RuntimeError "Timeout waiting for port allocation lock").
Proof. split; vm_compute; reflexivity. Qed.

(** ** Liveness probe *)

Lemma is_port_available_in_range port w :
  0 <= port <= 65535 -> is_port_available port w = Ret (port_free w port).
Proof.
  intros H; unfold is_port_available, socket_bind.
  destruct (Z.ltb_spec port 0); [lia |].
  destruct (Z.ltb_spec 65535 port); [lia |]; cbn.
  now destruct (port_free w port).
Qed.

Lemma socket_bind_in_range port w :
  0 <= port <= 65535 -> socket_bind w port <> BindOverflow.
Proof.
  intros H; unfold socket_bind.
  destruct (Z.ltb_spec port 0); [lia |].
  destruct (Z.ltb_spec 65535 port); [lia |]; cbn.
  destruct (port_free w port); discriminate.
Qed.

(** C9, as amended: for a port number in 0..65535 [is_port_available]
    returns a boolean: [True] exactly when the bind succeeds and [False]
    exactly when it fails with an OS error. *)
Theorem is_port_available_boolean_in_range :
  forall (port : Z) (w : world),
    0 <= port <= 65535 ->
    exists b, is_port_available port w = Ret b
              /\ (b = true <-> socket_bind w port = Bound)
              /\ (b = false <-> socket_bind w port = BindOSError).
Proof.
  intros port w H.
  pose proof (socket_bind_in_range port w H) as Hb.
  unfold is_port_available.
  destruct (socket_bind w port); [exists true | exists false | congruence];
    repeat apply conj; auto; intros; discriminate.
Qed.

(** C9, as stated, fails: port 65536 is an int, and the probe raises. *)
Lemma is_port_available_raises_out_of_range :
  is_port_available 65536 idle_world = Raise OverflowError
  /\ ~ (exists b, is_port_available 65536 idle_world = Ret b).
Proof. split; [reflexivity | intros [b H]; discriminate]. Qed.

(** ** Readers *)



(** ** The theorems at sample worlds *)

Lemma first_fit_at_two_apps :
  fst (find_available_port_with_lock 4090 100 None two_apps_world) = Ret (4090 + 2)
  /\ fst (find_available_port_with_lock 4090 100 None hand_written_world)
     = Ret (4090 + 1).
Proof.
  split.
  - refine (proj1 (find_available_port_with_lock_first_fit 4090 100 None two_apps_world
                     [PInt 4090; PInt 4091] _ _ _) 2 _ _ _).
    + left; reflexivity.
    + reflexivity.
    + reflexivity.
    + lia.
    + split; reflexivity.
    + intros j Hj; left.
      assert (Hc : j = 0 \/ j = 1) by lia.
      destruct Hc as [-> | ->]; reflexivity.
  - refine (proj1 (find_available_port_with_lock_first_fit 4090 100 None
                     hand_written_world [PFloat (Qmake 4090 1); PStr "4091"] _ _ _)
                  1 _ _ _).
    + left; reflexivity.
    + reflexivity.
    + reflexivity.
    + lia.
    + split; reflexivity.
    + intros j Hj; left.
      assert (Hc : j = 0) by lia.
      subst j; reflexivity.
Defined.

Lemma exhausted_at_two_apps :
  fst (find_available_port_with_lock 4090 2 None two_apps_world)
  = Raise (RuntimeError
             "Could not find available port starting from 4090 after 2 attempts").
Proof.
  refine (find_available_port_with_lock_exhausted 4090 2 None two_apps_world
            [PInt 4090; PInt 4091] _ _ _ _).
  - left; reflexivity.
  - reflexivity.
  - reflexivity.
  - intros j Hj; left.
    assert (Hc : j = 0 \/ j = 1) by lia.
    destruct Hc as [-> | ->]; reflexivity.
Defined.


Lemma round_trip_at_idle :
  get_app_port "project-hub" None
    (snd (save_app_port "project-hub" 4090 None idle_world))
  = Ret (PInt 4090).
Proof.
  refine (proj1 (save_then_load_round_trip "project-hub" 4090 None idle_world
                   (snd (save_app_port "project-hub" 4090 None idle_world)) _)).
  reflexivity.
Defined.

Lemma frame_at_two_apps :
  exists d' now,
    ports_file (fs (snd (save_app_port "gsheet" 5000 None two_apps_world)) "tools")
    = Parsed (PDict d')
    /\ dict_get "gsheet" d' = Some (allocation_record 5000 now)
    /\ dict_get "project-hub" d' = Some (allocation_record 4090 1000)
    /\ dict_keys d' = ["project-hub"; "gsheet"].
Proof.
  destruct (save_app_port_frame "gsheet" 5000 None two_apps_world
              (snd (save_app_port "gsheet" 5000 None two_apps_world))
              [("project-hub", allocation_record 4090 1000);
               ("gsheet", allocation_record 4091 2000)])
    as (d' & now & Hp & _ & Hnew & Hother & Hkeys & _).
  - reflexivity.
  - reflexivity.
  - repeat constructor; cbn; intuition discriminate.
  - exists d', now; split; [exact Hp |]; split; [exact Hnew |]; split; [| exact Hkeys].
    rewrite Hother; [reflexivity | discriminate].
Defined.

Lemma probe_at_4090 :
  exists b, is_port_available 4090 idle_world = Ret b
            /\ (b = true <-> socket_bind idle_world 4090 = Bound)
            /\ (b = false <-> socket_bind idle_world 4090 = BindOSError).
Proof. apply (is_port_available_boolean_in_range 4090 idle_world); lia. Defined.



Lemma atomic_at_two_apps :
  exists v s1 s2 before after,
    trace (snd (save_app_port "mer" 4093 None two_apps_world))
    = after ++ EvFs s2 :: EvFs s1 :: before
    /\ ports_file (s1 "tools") = Parsed two_apps
    /\ temp_file (s1 "tools") = Parsed v
    /\ ports_file (s2 "tools") = Parsed v
    /\ temp_file (s2 "tools") = Absent.
Proof.
  destruct (save_app_port_atomic "mer" 4093 None two_apps_world)
    as (new & T & _ & _ & Hdone & _).
  destruct (Hdone eq_refl)
    as (v & s1 & s2 & before & after & Hnew & H1 & H2 & H3 & H4 & _).
  exists v, s1, s2, before, after.
  rewrite T, Hnew, app_nil_r.
  repeat apply conj; auto.
Defined.

(** * Further properties of the module *)

(** ** Where the polling loop leaves the world *)

Section PollingState.

Variable root : string.
Variable start : Z.

(** When the loop acquires: at a poll no later than the deadline, at which
    the lock is free, and which is the first such poll; it changes the lock
    and nothing else of the file system. *)
Lemma acquire_lock_poll_acquired_state :
  forall n fuel w,
    (n < fuel)%nat ->
    clock w = poll_deadline start - poll_interval_ms * Z.of_nat n ->
    held_by_other (lock (fs w root)) (poll_deadline start) = false ->
    fs (snd (acquire_lock_poll fuel root start w)) = lock_taken root (fs w)
    /\ port_free (snd (acquire_lock_poll fuel root start w)) = port_free w
    /\ clock w <= clock (snd (acquire_lock_poll fuel root start w)) <= poll_deadline start
    /\ held_by_other (lock (fs w root))
                     (clock (snd (acquire_lock_poll fuel root start w))) = false
    /\ (clock (snd (acquire_lock_poll fuel root start w)) = clock w
        \/ held_by_other (lock (fs w root))
             (clock (snd (acquire_lock_poll fuel root start w)) - poll_interval_ms) = true)
    /\ no_new_snapshot (trace w) (trace (snd (acquire_lock_poll fuel root start w))).
Proof.
  induction n as [| n IH]; intros fuel w Hf Hc Hd;
    (destruct fuel as [| fuel]; [lia |]);
    destruct (held_by_other (lock (fs w root)) (clock w)) eqn:Hnow.
  - replace (clock w) with (poll_deadline start) in Hnow by budget; congruence.
  - rewrite acquire_step_free by assumption; cbn [snd].
    repeat apply conj; cbn [set_lock log clock fs port_free trace];
      try reflexivity; try budget; try assumption; try (left; reflexivity).
    intros s [H | H]; [discriminate | exact H].
  - rewrite acquire_step_retry by (assumption || budget).
    destruct (IH fuel (retried root w)) as (Hfs & Hp & Hck & Hfree & Hfirst & Hsnap).
    + lia.
    + unfold retried; cbn [sleep_ms snd clock log]; budget.
    + exact Hd.
    + assert (Hrc : clock (retried root w) = clock w + poll_interval_ms) by reflexivity.
      repeat apply conj; auto; try budget.
      * destruct Hfirst as [Hfirst | Hfirst]; [| now right].
        right; rewrite Hfirst, Hrc.
        now replace (clock w + poll_interval_ms - poll_interval_ms) with (clock w) by lia.
      * intros s Hs; apply Hsnap in Hs; unfold retried in Hs; cbn in Hs.
        destruct Hs as [H | [H | H]]; [discriminate | discriminate | exact H].
  - rewrite acquire_step_free by assumption; cbn [snd].
    repeat apply conj; cbn [set_lock log clock fs port_free trace];
      try reflexivity; try budget; try assumption; try (left; reflexivity).
    intros s [H | H]; [discriminate | exact H].
Qed.

End PollingState.

(** ** Every run of the allocator *)

Lemma lock_taken_same root f : lock_taken root f root = with_lock LockHeldBySelf (f root).
Proof. unfold lock_taken; apply update_workspace_same. Qed.

Lemma lock_taken_other root f r : r <> root -> lock_taken root f r = f r.
Proof. unfold lock_taken; now apply update_workspace_other. Qed.

Lemma lock_taken_fields root f r :
  ports_file (lock_taken root f r) = ports_file (f r)
  /\ temp_file (lock_taken root f r) = temp_file (f r)
  /\ dir_writable (lock_taken root f r) = dir_writable (f r)
  /\ disk_full (lock_taken root f r) = disk_full (f r)
  /\ lock_file (lock_taken root f r) = lock_file (f r).
Proof.
  unfold lock_taken, update_workspace.
  destruct (String.eqb_spec r root); subst; cbn; auto.
Qed.

Lemma scan_result_returns root p n w :
  obind (load_allocated_ports root w)
        (fun allocated => scan_ports allocated p n (range n) w) <> Hang.
Proof.
  pose proof (load_allocated_ports_returns root w) as H.
  destruct (load_allocated_ports root w); cbn [obind];
    [apply scan_ports_returns | discriminate | congruence].
Qed.

Lemma scan_result_ext root p n w w' :
  ports_file (fs w' root) = ports_file (fs w root) ->
  port_free w' = port_free w ->
  obind (load_allocated_ports root w')
        (fun allocated => scan_ports allocated p n (range n) w')
  = obind (load_allocated_ports root w)
          (fun allocated => scan_ports allocated p n (range n) w).
Proof.
  intros Hp Hf; rewrite (load_allocated_ports_ext root w w' Hp).
  destruct (load_allocated_ports root w); cbn [obind]; auto.
  now apply scan_ports_ext.
Qed.

(** The three ways a call can go: no sentinel, timeout, or the scan under the
    lock followed by the unlock. *)
Lemma find_available_port_with_lock_cases p n workspace_root w :
  (lock_file (fs w (resolve_root workspace_root)) = false
   /\ dir_writable (fs w (resolve_root workspace_root)) = false
   /\ find_available_port_with_lock p n workspace_root w = (Raise OSError, w))
  \/ (sentinel_ready w (resolve_root workspace_root)
      /\ ~ lock_obtainable w (resolve_root workspace_root)
      /\ exists w',
           find_available_port_with_lock p n workspace_root w
           = (Raise (RuntimeError timeout_message), w')
           /\ fs w' = fs (touched (resolve_root workspace_root) w)
           /\ port_free w' = port_free w
           /\ clock w' = clock w + max_wait_ms + poll_interval_ms
           /\ no_new_snapshot (trace (touched (resolve_root workspace_root) w)) (trace w'))
  \/ (sentinel_ready w (resolve_root workspace_root)
      /\ lock_obtainable w (resolve_root workspace_root)
      /\ exists w2,
           find_available_port_with_lock p n workspace_root w
           = (obind (load_allocated_ports (resolve_root workspace_root) w)
                    (fun allocated => scan_ports allocated p n (range n) w),
              flock_unlock (resolve_root workspace_root) w2)
           /\ fs w2 = lock_taken (resolve_root workspace_root)
                        (fs (touched (resolve_root workspace_root) w))
           /\ port_free w2 = port_free w
           /\ clock w <= clock w2 <= clock w + max_wait_ms + poll_interval_ms
           /\ held_by_other (lock (fs w (resolve_root workspace_root))) (clock w2) = false
           /\ (clock w2 = clock w
               \/ held_by_other (lock (fs w (resolve_root workspace_root)))
                                (clock w2 - poll_interval_ms) = true)
           /\ no_new_snapshot (trace (touched (resolve_root workspace_root) w)) (trace w2)).
Proof.
  unfold find_available_port_with_lock.
  remember (resolve_root workspace_root) as root eqn:Hroot.
  destruct (lock_file (fs w root)) eqn:Hlf, (dir_writable (fs w root)) eqn:Hdw.
  4: { left; repeat apply conj; auto.
       unfold bind; now rewrite touch_lock_file_blocked. }
  all: right.
  all: assert (Hs : sentinel_ready w root) by (unfold sentinel_ready; auto).
  all: unfold bind, time_ms; rewrite touch_lock_file_ready by assumption.
  all: destruct (held_by_other (lock (fs w root))
                   (clock w + max_wait_ms + poll_interval_ms)) eqn:Hheld.
  all: try (left; split; [exact Hs |]; split; [unfold lock_obtainable; congruence |];
            destruct (acquire_lock_poll_times_out root (clock (touched root w)) 101
                        poll_fuel (touched root w))
              as (w' & E & Hfs & Hp & Hck & _ & Hsnap);
            [ rewrite poll_fuel_value; lia | budget
            | now rewrite touched_lock, touched_clock | ];
            exists w'; rewrite E; repeat apply conj; auto;
            [ rewrite Hp; apply (touched_untouched root w)
            | rewrite Hck, touched_clock; reflexivity ]).
  all: right; split; [exact Hs |]; split; [exact Hheld |].
  all: destruct (acquire_lock_poll_acquires root (clock (touched root w)) 101
                   poll_fuel (touched root w)) as (w2 & E & _);
    [ rewrite poll_fuel_value; lia | budget
    | now rewrite touched_lock, touched_clock | ].
  all: destruct (acquire_lock_poll_acquired_state root (clock (touched root w)) 101
                   poll_fuel (touched root w))
      as (Hfs & Hp & Hck & Hfree & Hfirst & Hsnap);
    [ rewrite poll_fuel_value; lia | budget
    | now rewrite touched_lock, touched_clock | ].
  all: rewrite E in *; cbn [snd] in *; exists w2.
  all: rewrite touched_lock, touched_clock in *.
  all: assert (Hports : ports_file (fs w2 root) = ports_file (fs w root))
      by (rewrite Hfs, lock_taken_same; cbn; apply (touched_untouched root w)).
  all: assert (Hfree' : port_free w2 = port_free w)
      by (rewrite Hp; apply (touched_untouched root w)).
  all: repeat apply conj; auto; try budget.
  all: unfold try_finally; rewrite (scan_result_ext root p n w w2 Hports Hfree').
  all: pose proof (scan_result_returns root p n w) as Hret.
  all: destruct (obind (load_allocated_ports root w)
                   (fun allocated => scan_ports allocated p n (range n) w));
    [reflexivity | reflexivity | congruence].
Qed.

(** ** What a returned port is *)

Lemma is_port_available_true port w :
  is_port_available port w = Ret true -> 0 <= port <= 65535 /\ port_free w port = true.
Proof.
  unfold is_port_available, socket_bind.
  destruct (Z.ltb_spec port 0); cbn; [discriminate |].
  destruct (Z.ltb_spec 65535 port); cbn; [discriminate |].
  destruct (port_free w port); [split; [lia | reflexivity] | discriminate].
Qed.

Lemma scan_ports_sound allocated p n w q :
  forall len a,
    scan_ports allocated p n (map Z.of_nat (seq a len)) w = Ret q ->
    exists k, (a <= k < a + len)%nat
              /\ q = p + Z.of_nat k
              /\ usable allocated w q
              /\ forall j, (a <= j < k)%nat -> passed_over allocated w (p + Z.of_nat j).
Proof.
  induction len as [| len IH]; intros a H; cbn [seq map scan_ports] in H; [discriminate |].
  destruct (set_contains_int allocated (p + Z.of_nat a)) eqn:Hin.
  - destruct (IH (S a) H) as (k & Hk & Hq & Hu & Hbefore).
    exists k; split; [lia | split; [exact Hq | split; [exact Hu |]]].
    intros j Hj; destruct (Nat.eq_dec j a) as [-> | Hne]; [now left | apply Hbefore; lia].
  - destruct (is_port_available (p + Z.of_nat a) w) as [[|] | e |] eqn:Hprobe;
      try discriminate.
    + inversion H; subst q; exists a.
      split; [lia | split; [reflexivity | split; [now split | intros j Hj; lia]]].
    + destruct (IH (S a) H) as (k & Hk & Hq & Hu & Hbefore).
      exists k; split; [lia | split; [exact Hq | split; [exact Hu |]]].
      intros j Hj; destruct (Nat.eq_dec j a) as [-> | Hne]; [now right | apply Hbefore; lia].
Qed.

(** What the result of a call is always equal to when the call returns a
    port: the scan under the lock. *)
Lemma returned_port_is_scanned p n workspace_root w q :
  fst (find_available_port_with_lock p n workspace_root w) = Ret q ->
  sentinel_ready w (resolve_root workspace_root)
  /\ lock_obtainable w (resolve_root workspace_root)
  /\ exists allocated,
       load_allocated_ports (resolve_root workspace_root) w = Ret allocated
       /\ scan_ports allocated p n (range n) w = Ret q.
Proof.
  intros H.
  destruct (find_available_port_with_lock_cases p n workspace_root w)
    as [(_ & _ & E) | [(_ & _ & w' & E & _) | (Hs & Hl & w2 & E & _)]];
    rewrite E in H; cbn [fst] in H; try discriminate.
  split; [exact Hs |]; split; [exact Hl |].
  destruct (load_allocated_ports (resolve_root workspace_root) w) as [allocated | e |];
    cbn [obind] in H; try discriminate.
  now exists allocated.
Qed.

Lemma returned_port_offset p n workspace_root w q :
  fst (find_available_port_with_lock p n workspace_root w) = Ret q ->
  exists allocated k,
    load_allocated_ports (resolve_root workspace_root) w = Ret allocated
    /\ (k < Z.to_nat n)%nat
    /\ q = p + Z.of_nat k
    /\ usable allocated w q
    /\ forall j, (j < k)%nat -> passed_over allocated w (p + Z.of_nat j).
Proof.
  intros H.
  destruct (returned_port_is_scanned _ _ _ _ _ H) as (_ & _ & allocated & Hload & Hscan).
  rewrite range_offsets in Hscan.
  destruct (scan_ports_sound _ _ _ _ _ _ _ Hscan) as (k & Hk & Hq & Hu & Hbefore).
  exists allocated, k; repeat split; auto; try lia; try apply Hu.
  intros j Hj; apply Hbefore; lia.
Qed.

(** X1: a port that [find_available_port_with_lock] returns is one of the
    candidates, is not in the registry's allocated-port set, was probed free
    (so it is a port number the OS lets bind), and every candidate before it
    was claimed or probed bound. *)
Theorem find_available_port_with_lock_sound :
  forall (preferred_port max_attempts : Z) (workspace_root : option string)
         (w : world) (port : Z),
    fst (find_available_port_with_lock preferred_port max_attempts workspace_root w)
    = Ret port ->
    exists allocated offset,
      load_allocated_ports (resolve_root workspace_root) w = Ret allocated
      /\ 0 <= offset < max_attempts
      /\ port = preferred_port + offset
      /\ set_contains_int allocated port = false
      /\ is_port_available port w = Ret true
      /\ 0 <= port <= 65535
      /\ port_free w port = true
      /\ forall j, 0 <= j < offset -> passed_over allocated w (preferred_port + j).
Proof.
  intros p n workspace_root w q H.
  destruct (returned_port_offset _ _ _ _ _ H)
    as (allocated & k & Hload & Hk & Hq & [Hnot Hprobe] & Hbefore).
  destruct (is_port_available_true _ _ Hprobe) as [Hrange Hfree].
  exists allocated, (Z.of_nat k).
  split; [exact Hload |]; split; [lia |]; split; [exact Hq |].
  split; [exact Hnot |]; split; [exact Hprobe |]; split; [exact Hrange |].
  split; [exact Hfree |].
  intros j Hj; rewrite <- (Z2Nat.id j) by lia; apply Hbefore; lia.
Qed.

(** ** The lock, the clock and the files across a call of the allocator *)

Lemma flock_unlock_lock root w : lock (fs (flock_unlock root w) root) = LockFree.
Proof. cbn; now rewrite update_workspace_same. Qed.

Lemma flock_unlock_untouched root w : registry_untouched w (flock_unlock root w).
Proof.
  unfold flock_unlock.
  apply registry_untouched_trans with (log (EvUnlock root) w);
    [apply log_untouched | apply set_lock_untouched].
Qed.

Lemma flock_unlock_others root w : others_untouched root w (flock_unlock root w).
Proof. intros r Hr; cbn; now apply update_workspace_other. Qed.

Lemma flock_unlock_fields root w r :
  ports_file (fs (flock_unlock root w) r) = ports_file (fs w r)
  /\ temp_file (fs (flock_unlock root w) r) = temp_file (fs w r).
Proof.
  cbn; unfold update_workspace; destruct (String.eqb_spec r root); subst; cbn; auto.
Qed.

Lemma flock_unlock_lock_file root w r :
  lock_file (fs (flock_unlock root w) r) = lock_file (fs w r).
Proof.
  cbn; unfold update_workspace; destruct (String.eqb_spec r root); subst; reflexivity.
Qed.

Lemma scan_ends_with_unlock p n workspace_root w :
  sentinel_ready w (resolve_root workspace_root) ->
  lock_obtainable w (resolve_root workspace_root) ->
  exists w2,
    snd (find_available_port_with_lock p n workspace_root w)
    = flock_unlock (resolve_root workspace_root) w2
    /\ lock_file (fs w2 (resolve_root workspace_root)) = true.
Proof.
  intros Hs Hl.
  destruct (find_available_port_with_lock_cases p n workspace_root w)
    as [(H1 & H2 & _) | [(_ & Hn & _) | (_ & _ & w2 & E & Hfs & _)]].
  - destruct Hs; congruence.
  - contradiction.
  - exists w2; rewrite E; split; [reflexivity |].
    rewrite Hfs, lock_taken_same; cbn; apply touched_lock_file.
Qed.

(** X2: once [find_available_port_with_lock] has the lock it gives it back
    whatever the scan does: whether the call returns a port or raises (the
    allocation error, or an error of the registry's shape or of the probe),
    the lock is free afterwards and the sentinel exists. *)
Theorem find_available_port_with_lock_releases :
  forall (preferred_port max_attempts : Z) (workspace_root : option string) (w : world),
    sentinel_ready w (resolve_root workspace_root) ->
    lock_obtainable w (resolve_root workspace_root) ->
    lock (fs (snd (find_available_port_with_lock preferred_port max_attempts
                     workspace_root w))
             (resolve_root workspace_root)) = LockFree
    /\ lock_file (fs (snd (find_available_port_with_lock preferred_port max_attempts
                             workspace_root w))
                     (resolve_root workspace_root)) = true.
Proof.
  intros p n workspace_root w Hs Hl.
  destruct (scan_ends_with_unlock p n workspace_root w Hs Hl) as (w2 & E & Hlf).
  rewrite E; split; [apply flock_unlock_lock |].
  now rewrite flock_unlock_lock_file.
Qed.

Lemma allocator_keeps_registry_file p n workspace_root w :
  (forall r, ports_file (fs (snd (find_available_port_with_lock p n workspace_root w)) r)
             = ports_file (fs w r))
  /\ port_free (snd (find_available_port_with_lock p n workspace_root w)) = port_free w.
Proof.
  pose proof (touched_untouched (resolve_root workspace_root) w) as [T1 _ _ _ T5].
  destruct (find_available_port_with_lock_cases p n workspace_root w)
    as [(_ & _ & E) | [(_ & _ & w' & E & Hfs & Hp & _) | (_ & _ & w2 & E & Hfs & Hp & _)]];
    rewrite E; cbn [snd].
  - split; reflexivity.
  - split; [intros r; rewrite Hfs; apply T1 | exact Hp].
  - split; [| exact Hp].
    intros r.
    destruct (flock_unlock_fields (resolve_root workspace_root) w2 r) as [F _].
    destruct (lock_taken_fields (resolve_root workspace_root)
                (fs (touched (resolve_root workspace_root) w)) r) as (G & _).
    now rewrite F, Hfs, G.
Qed.

(** X4: the allocator only reads: in every world, whatever the outcome, the
    registry file, the temporary file and the OS ports are as before the
    call, every other workspace is untouched, and the sentinel, once there,
    stays. *)
Theorem find_available_port_with_lock_reads_only :
  forall (preferred_port max_attempts : Z) (workspace_root : option string) (w : world),
    registry_untouched w
      (snd (find_available_port_with_lock preferred_port max_attempts workspace_root w))
    /\ others_untouched (resolve_root workspace_root) w
         (snd (find_available_port_with_lock preferred_port max_attempts workspace_root w))
    /\ forall r, lock_file (fs w r) = true ->
                 lock_file
                   (fs (snd (find_available_port_with_lock preferred_port max_attempts
                               workspace_root w)) r) = true.
Proof.
  intros p n workspace_root w.
  pose proof (touched_untouched (resolve_root workspace_root) w) as [T1 T2 T3 T4 T5].
  assert (Htl : forall r, lock_file (fs w r) = true ->
                          lock_file (fs (touched (resolve_root workspace_root) w) r) = true).
  { intros r Hr; unfold touched.
    destruct (lock_file (fs w (resolve_root workspace_root))); [exact Hr |].
    cbn; unfold update_workspace.
    destruct (String.eqb_spec r (resolve_root workspace_root)); [reflexivity | exact Hr]. }
  destruct (find_available_port_with_lock_cases p n workspace_root w)
    as [(_ & _ & E) | [(_ & _ & w' & E & Hfs & Hp & _) | (_ & _ & w2 & E & Hfs & Hp & _)]];
    rewrite E; cbn [snd].
  - split; [apply registry_untouched_refl |].
    split; [apply others_untouched_refl | auto].
  - split; [constructor; intros; rewrite ?Hfs, ?Hp; auto |].
    split; [intros r Hr; rewrite Hfs; now apply touched_others |].
    intros r Hr; rewrite Hfs; auto.
  - assert (Hu2 : registry_untouched w w2).
    { constructor; intros; rewrite ?Hfs, ?Hp; auto;
        destruct (lock_taken_fields (resolve_root workspace_root)
                    (fs (touched (resolve_root workspace_root) w)) r)
          as (F1 & F2 & F3 & F4 & F5); congruence. }
    split; [eapply registry_untouched_trans; [exact Hu2 | apply flock_unlock_untouched] |].
    split.
    + intros r Hr.
      rewrite (flock_unlock_others _ w2 r Hr), Hfs, lock_taken_other by assumption.
      now apply touched_others.
    + intros r Hr; rewrite flock_unlock_lock_file, Hfs.
      destruct (lock_taken_fields (resolve_root workspace_root)
                  (fs (touched (resolve_root workspace_root) w)) r)
        as (_ & _ & _ & _ & F5).
      rewrite F5; auto.
Qed.

Lemma collect_ports_error infos e :
  collect_ports infos = Raise e -> e = TypeError \/ e = KeyError.
Proof.
  induction infos as [| info rest IH]; cbn [collect_ports]; [discriminate |].
  destruct info; cbn [getitem_str obind]; try (intros H; inversion H; auto; fail).
  destruct (dict_get "port" d) as [v |]; cbn [obind];
    [| intros H; inversion H; auto].
  destruct (hashable v); [| intros H; inversion H; auto].
  destruct (collect_ports rest) as [ps | e' |]; cbn [obind]; try discriminate.
  intros H; inversion H; subst; now apply IH.
Qed.

Lemma scan_ports_error allocated p n offsets w e :
  scan_ports allocated p n offsets w = Raise e ->
  e = RuntimeError (exhausted_message p n) \/ e = OverflowError.
Proof.
  induction offsets as [| o rest IH]; cbn [scan_ports].
  - intros H; inversion H; auto.
  - destruct (set_contains_int allocated (p + o)); [exact IH |].
    unfold is_port_available.
    destruct (socket_bind w (p + o)); [discriminate | exact IH |].
    intros H; inversion H; auto.
Qed.

(** The timeout error comes from the polling loop only: the scan under the
    lock never raises it. *)
Lemma scan_result_is_no_timeout root p n w :
  obind (load_allocated_ports root w)
        (fun allocated => scan_ports allocated p n (range n) w)
  <> Raise (RuntimeError timeout_message).
Proof.
  unfold load_allocated_ports.
  destruct (ports_file (fs w root)) as [| | | v]; cbn [obind].
  4: { destruct v; cbn [values obind]; try discriminate.
       destruct (collect_ports (dict_values d)) as [ps | e |] eqn:E; cbn [obind];
         [| intros H; inversion H; subst;
            destruct (collect_ports_error _ _ E); discriminate
          | discriminate].
       intros H; destruct (scan_ports_error _ _ _ _ _ _ H) as [H' | H']; inversion H'. }
  all: intros H; destruct (scan_ports_error _ _ _ _ _ _ H) as [H' | H']; inversion H'.
Qed.

(** X6: the allocator waits for a holder that lets go within the 10 s
    budget: it does not time out, it does not come back before the lock is
    let go, and it leaves the lock free. *)
Theorem find_available_port_with_lock_waits_for_release :
  forall (preferred_port max_attempts : Z) (workspace_root : option string)
         (w : world) (release : Z),
    sentinel_ready w (resolve_root workspace_root) ->
    lock (fs w (resolve_root workspace_root)) = LockHeldUntil release ->
    clock w < release <= clock w + max_wait_ms ->
    fst (find_available_port_with_lock preferred_port max_attempts workspace_root w)
    <> Raise (RuntimeError "Timeout waiting for port allocation lock")
    /\ release
       <= clock (snd (find_available_port_with_lock preferred_port max_attempts
                        workspace_root w))
    /\ lock (fs (snd (find_available_port_with_lock preferred_port max_attempts
                        workspace_root w))
                (resolve_root workspace_root)) = LockFree.
Proof.
  intros p n workspace_root w release Hs Hl Hr.
  assert (Hob : lock_obtainable w (resolve_root workspace_root)).
  { unfold lock_obtainable; rewrite Hl; cbn; apply Z.ltb_ge; budget. }
  destruct (find_available_port_with_lock_cases p n workspace_root w)
    as [(H1 & H2 & _) | [(_ & Hn & _) | (_ & _ & w2 & E & _ & _ & _ & Hfree & _)]].
  - destruct Hs; congruence.
  - contradiction.
  - rewrite E; cbn [fst snd].
    rewrite Hl in Hfree; cbn in Hfree; apply Z.ltb_ge in Hfree.
    split; [apply scan_result_is_no_timeout |]; split; [exact Hfree |].
    apply flock_unlock_lock.
Qed.

(** X7: allocating does not reserve: when a call got the lock, the same call
    made right after it, with nothing saved in between, has the same result,
    the same port included. *)
Theorem find_available_port_with_lock_repeats :
  forall (preferred_port max_attempts : Z) (workspace_root : option string) (w : world),
    sentinel_ready w (resolve_root workspace_root) ->
    lock_obtainable w (resolve_root workspace_root) ->
    fst (find_available_port_with_lock preferred_port max_attempts workspace_root
           (snd (find_available_port_with_lock preferred_port max_attempts
                   workspace_root w)))
    = fst (find_available_port_with_lock preferred_port max_attempts workspace_root w).
Proof.
  intros p n workspace_root w Hs Hl.
  destruct (scan_ends_with_unlock p n workspace_root w Hs Hl) as (w2 & E & Hlf2).
  assert (Hfree : lock (fs (snd (find_available_port_with_lock p n workspace_root w))
                           (resolve_root workspace_root)) = LockFree)
    by (rewrite E; apply flock_unlock_lock).
  assert (Hlf : lock_file (fs (snd (find_available_port_with_lock p n workspace_root w))
                              (resolve_root workspace_root)) = true)
    by (rewrite E; now rewrite flock_unlock_lock_file).
  clear E.
  destruct (allocator_keeps_registry_file p n workspace_root w) as (Hp & Hf).
  rewrite (find_available_port_with_lock_locked p n workspace_root w) by assumption.
  rewrite find_available_port_with_lock_locked.
  - apply scan_result_ext; [apply Hp | exact Hf].
  - left; exact Hlf.
  - unfold lock_obtainable; now rewrite Hfree.
Qed.

(** ** Ports claimed in the registry *)

Lemma dict_get_in_values k d v : dict_get k d = Some v -> In v (dict_values d).
Proof.
  unfold dict_values; induction d as [| [k' v'] rest IH]; cbn; [discriminate |].
  destruct (String.eqb k k'); [intros H; inversion H; now left | right; now apply IH].
Qed.

Lemma collect_ports_member infos ports info v :
  collect_ports infos = Ret ports ->
  In info infos -> getitem_str info "port" = Ret v -> In v ports.
Proof.
  revert ports; induction infos as [| i rest IH]; intros ports Hc Hin Hget; [destruct Hin |].
  cbn [collect_ports] in Hc.
  destruct (getitem_str i "port") as [p | e |] eqn:Hi; cbn [obind] in Hc; try discriminate.
  destruct (hashable p); [| discriminate].
  destruct (collect_ports rest) as [ps | e |]; cbn [obind] in Hc; try discriminate.
  inversion Hc; subst ports.
  destruct Hin as [-> | Hin]; [left; congruence | right; now apply IH].
Qed.

Lemma claimed_is_allocated root w app port allocated :
  claimed_by root w app port ->
  load_allocated_ports root w = Ret allocated ->
  set_contains_int allocated port = true.
Proof.
  intros (d & info & Hfile & Hget & Hport) Hload.
  unfold load_allocated_ports in Hload; rewrite Hfile in Hload; cbn in Hload.
  apply existsb_exists; exists (PInt port); split; [| cbn; apply Z.eqb_refl].
  eapply collect_ports_member; eauto using dict_get_in_values.
Qed.

Lemma claimed_never_returned workspace_root w app port p n :
  claimed_by (resolve_root workspace_root) w app port ->
  fst (find_available_port_with_lock p n workspace_root w) <> Ret port.
Proof.
  intros Hc H.
  destruct (returned_port_is_scanned _ _ _ _ _ H) as (_ & _ & allocated & Hload & Hscan).
  rewrite range_offsets in Hscan.
  destruct (scan_ports_sound _ _ _ _ _ _ _ Hscan) as (k & _ & _ & [Hu _] & _).
  rewrite (claimed_is_allocated _ _ _ _ _ Hc Hload) in Hu; discriminate.
Qed.

Lemma claimed_by_ext root w w' app port :
  ports_file (fs w' root) = ports_file (fs w root) ->
  claimed_by root w app port -> claimed_by root w' app port.
Proof. intros E (d & info & Hf & Hg & Hp); exists d, info; rewrite E; auto. Qed.

Lemma save_app_port_claims app port workspace_root w w' :
  save_app_port app port workspace_root w = (Ret tt, w') ->
  claimed_by (resolve_root workspace_root) w' app port.
Proof.
  intros E.
  destruct (save_app_port_returns _ _ _ _ _ E) as (d & now & _ & _ & Hp & _).
  eexists; eexists; split; [exact Hp |]; split; [apply dict_get_set_same | reflexivity].
Qed.

Lemma save_app_port_keeps_claims app port workspace_root w w' other q :
  save_app_port app port workspace_root w = (Ret tt, w') ->
  other <> app ->
  claimed_by (resolve_root workspace_root) w other q ->
  claimed_by (resolve_root workspace_root) w' other q.
Proof.
  intros E Hne (d & info & Hf & Hg & Hq).
  destruct (save_app_port_returns _ _ _ _ _ E) as (d0 & now & Hload & _ & Hp & _).
  unfold load_ports_data in Hload; rewrite Hf in Hload; inversion Hload; subst d0.
  eexists; exists info; split; [exact Hp |]; split; [| exact Hq].
  now rewrite dict_get_set_other.
Qed.

(** X8: a port that an application has saved is not handed out again: after
    [save_app_port app port] has returned, no call of
    [find_available_port_with_lock] on that workspace returns [port],
    whatever the preferred port and the number of attempts, and even if the
    OS reports the port free. *)
Theorem saved_port_is_reserved :
  forall (app : string) (port : Z) (workspace_root : option string) (w w' : world)
         (preferred_port max_attempts : Z),
    save_app_port app port workspace_root w = (Ret tt, w') ->
    fst (find_available_port_with_lock preferred_port max_attempts workspace_root w')
    <> Ret port.
Proof.
  intros app port workspace_root w w' p n E.
  eapply claimed_never_returned, save_app_port_claims, E.
Qed.

(** ** Applications starting one after the other *)

Lemma bind_returns {A B} (m : M A) (k : A -> M B) w b w' :
  bind m k w = (Ret b, w') ->
  exists a w1, m w = (Ret a, w1) /\ k a w1 = (Ret b, w').
Proof.
  unfold bind; destruct (m w) as [[a | e |] w1]; intros H; try discriminate.
  now exists a, w1.
Qed.

Lemma allocate_and_save_returns app p n workspace_root w port w' :
  allocate_and_save app p n workspace_root w = (Ret port, w') ->
  exists w1,
    find_available_port_with_lock p n workspace_root w = (Ret port, w1)
    /\ save_app_port app port workspace_root w1 = (Ret tt, w').
Proof.
  unfold allocate_and_save; intros H.
  apply bind_returns in H; destruct H as (q & w1 & Hfind & H).
  apply bind_returns in H; destruct H as ([] & w2 & Hsave & H).
  inversion H; subst; now exists w1.
Qed.

Lemma launch_all_distinct p n workspace_root :
  forall apps w ports w' (earlier : list (string * Z)),
    NoDup apps ->
    (forall a q, In (a, q) earlier ->
                 claimed_by (resolve_root workspace_root) w a q /\ ~ In a apps) ->
    launch_all apps p n workspace_root w = (Ret ports, w') ->
    NoDup ports
    /\ List.length ports = List.length apps
    /\ (forall a q, In (a, q) earlier -> ~ In q ports).
Proof.
  induction apps as [| app rest IH]; intros w ports w' earlier Hnd Hearlier H.
  - inversion H; subst; repeat apply conj; auto; constructor.
  - cbn [launch_all] in H.
    apply bind_returns in H; destruct H as (port & w2 & Hone & H).
    apply bind_returns in H; destruct H as (ports' & w3 & Hrest & H).
    inversion H; subst ports w3; clear H.
    destruct (allocate_and_save_returns _ _ _ _ _ _ _ Hone) as (w1 & Hfind & Hsave).
    inversion Hnd as [| ? ? Hnotin Hnd']; subst.
    assert (Hports1 : ports_file (fs w1 (resolve_root workspace_root))
                      = ports_file (fs w (resolve_root workspace_root))).
    { pose proof (allocator_keeps_registry_file p n workspace_root w) as (Hp & _).
      rewrite Hfind in Hp; apply Hp. }
    destruct (IH w2 ports' w' ((app, port) :: earlier) Hnd') as (Hd & Hlen & Hout);
      [| exact Hrest |].
    { intros a q [Heq | Hq].
      - inversion Heq; subst a q; split; [| exact Hnotin].
        eapply save_app_port_claims; exact Hsave.
      - destruct (Hearlier a q Hq) as [Hc Hna]; split.
        + eapply save_app_port_keeps_claims; [exact Hsave | | ].
          * intros ->; apply Hna; now left.
          * eapply claimed_by_ext; [exact Hports1 | exact Hc].
        + intros Hr; apply Hna; now right. }
    repeat apply conj.
    + constructor; [| exact Hd].
      apply (Hout app port); now left.
    + cbn; now rewrite Hlen.
    + intros a q Hq [Heq | Hq'].
      * subst q; destruct (Hearlier a port Hq) as [Hc _].
        apply (claimed_never_returned workspace_root w a port p n Hc).
        now rewrite Hfind.
      * apply (Hout a q); [now right | exact Hq'].
Qed.

Lemma allocator_keeps_claims p n workspace_root w a q :
  claimed_by (resolve_root workspace_root) w a q ->
  claimed_by (resolve_root workspace_root)
             (snd (find_available_port_with_lock p n workspace_root w)) a q.
Proof.
  apply claimed_by_ext.
  pose proof (allocator_keeps_registry_file p n workspace_root w) as (Hp & _).
  apply Hp.
Qed.

Lemma launch_all_keeps_claims p n workspace_root a q :
  forall apps w ports w',
    ~ In a apps ->
    launch_all apps p n workspace_root w = (Ret ports, w') ->
    claimed_by (resolve_root workspace_root) w a q ->
    claimed_by (resolve_root workspace_root) w' a q.
Proof.
  induction apps as [| app rest IH]; intros w ports w' Hna H Hc.
  - inversion H; subst; exact Hc.
  - cbn [launch_all] in H.
    apply bind_returns in H; destruct H as (port & w2 & Hone & H).
    apply bind_returns in H; destruct H as (ports' & w3 & Hrest & H).
    inversion H; subst ports w3; clear H.
    destruct (allocate_and_save_returns _ _ _ _ _ _ _ Hone) as (w1 & Hfind & Hsave).
    apply (IH w2 ports' w'); [intros Hr; apply Hna; now right | exact Hrest |].
    eapply save_app_port_keeps_claims; [exact Hsave | intros ->; apply Hna; now left |].
    pose proof (allocator_keeps_claims p n workspace_root w a q Hc) as Hc1.
    now rewrite Hfind in Hc1.
Qed.

Lemma launch_all_records p n workspace_root :
  forall apps w ports w',
    NoDup apps ->
    launch_all apps p n workspace_root w = (Ret ports, w') ->
    Forall2 (claimed_by (resolve_root workspace_root) w') apps ports.
Proof.
  induction apps as [| app rest IH]; intros w ports w' Hnd H.
  - inversion H; subst; constructor.
  - cbn [launch_all] in H.
    apply bind_returns in H; destruct H as (port & w2 & Hone & H).
    apply bind_returns in H; destruct H as (ports' & w3 & Hrest & H).
    inversion H; subst ports w3; clear H.
    destruct (allocate_and_save_returns _ _ _ _ _ _ _ Hone) as (w1 & Hfind & Hsave).
    inversion Hnd as [| ? ? Hnotin Hnd']; subst.
    constructor; [| now apply (IH w2)].
    eapply launch_all_keeps_claims; [exact Hnotin | exact Hrest |].
    eapply save_app_port_claims; exact Hsave.
Qed.

Lemma claimed_port_is_read workspace_root w app port :
  claimed_by (resolve_root workspace_root) w app port ->
  get_app_port app workspace_root w = Ret (PInt port).
Proof.
  intros (d & info & Hf & Hg & Hp).
  unfold get_app_port; rewrite Hf; cbn [contains_str obind].
  unfold dict_mem; rewrite Hg; cbn [getitem_str obind]; now rewrite Hg.
Qed.

(** X9: applications with distinct names that start one after the other,
    each allocating from the same preferred port and then saving, get
    pairwise distinct ports, one each, and at the end [get_app_port] gives
    each of them its own port. *)
Theorem launch_all_gives_distinct_ports :
  forall (apps : list string) (preferred_port max_attempts : Z)
         (workspace_root : option string) (w w' : world) (ports : list Z),
    NoDup apps ->
    launch_all apps preferred_port max_attempts workspace_root w = (Ret ports, w') ->
    NoDup ports
    /\ List.length ports = List.length apps
    /\ Forall2 (fun app port => get_app_port app workspace_root w' = Ret (PInt port))
               apps ports.
Proof.
  intros apps p n workspace_root w w' ports Hnd H.
  destruct (launch_all_distinct p n workspace_root apps w ports w' [] Hnd) as (Hd & Hl & _);
    [intros a q [] | exact H |].
  split; [exact Hd |]; split; [exact Hl |].
  eapply Forall2_impl; [| exact (launch_all_records p n workspace_root apps w ports w' Hnd H)].
  intros app port; apply claimed_port_is_read.
Qed.

(** ** Every run of the writer *)

Lemma update_registry_outcome app port root w :
  fst (update_registry app port root w)
  = match load_ports_data root w with
    | PDict _ =>
        if dir_writable (fs w root)
        then if disk_full (fs w root) then Raise OSError else Ret tt
        else Raise OSError
    | _ => Raise TypeError
    end.
Proof.
  unfold update_registry, bind, time_ms, lift, write_temp_file, replace_temp_file.
  destruct (load_ports_data root w); cbn [setitem_str]; try reflexivity.
  destruct (dir_writable (fs w root)); [| reflexivity].
  destruct (disk_full (fs w root)); reflexivity.
Qed.

Lemma update_registry_returns app port root w :
  fst (update_registry app port root w) <> Hang.
Proof.
  rewrite update_registry_outcome.
  destruct (load_ports_data root w); try discriminate.
  destruct (dir_writable (fs w root)); [| discriminate].
  destruct (disk_full (fs w root)); discriminate.
Qed.

Lemma update_registry_others app port root w :
  others_untouched root w (snd (update_registry app port root w)).
Proof.
  intros r Hr.
  unfold update_registry, bind, time_ms, lift, write_temp_file, replace_temp_file.
  destruct (load_ports_data root w); cbn [setitem_str snd]; try reflexivity.
  destruct (dir_writable (fs w root)); [| reflexivity].
  destruct (disk_full (fs w root)); cbn; now rewrite ?update_workspace_other by assumption.
Qed.

Lemma update_registry_lock app port root w :
  lock (fs (snd (update_registry app port root w)) root) = lock (fs w root).
Proof.
  unfold update_registry, bind, time_ms, lift, write_temp_file, replace_temp_file.
  destruct (load_ports_data root w); cbn [setitem_str snd]; try reflexivity.
  destruct (dir_writable (fs w root)); [| reflexivity].
  destruct (disk_full (fs w root)); cbn; now rewrite ?update_workspace_same.
Qed.

(** A write on a full disk: the temporary file is left half-written. *)
Lemma update_registry_disk_full app port root w d :
  load_ports_data root w = PDict d ->
  dir_writable (fs w root) = true ->
  disk_full (fs w root) = true ->
  update_registry app port root w
  = (Raise OSError, set_workspace root (with_temp_file Malformed (fs w root)) w).
Proof.
  intros Hl Hw Hd.
  unfold update_registry, bind, time_ms, lift, write_temp_file.
  rewrite Hl; cbn [setitem_str]; now rewrite Hw, Hd.
Qed.

Lemma update_registry_not_dict app port root w :
  (forall d, load_ports_data root w <> PDict d) ->
  update_registry app port root w = (Raise TypeError, w).
Proof.
  intros H; unfold update_registry, bind, time_ms, lift.
  destruct (load_ports_data root w); cbn [setitem_str]; try reflexivity.
  now destruct (H d).
Qed.

Lemma flock_blocking_others root w :
  others_untouched root w (snd (flock_blocking root w)).
Proof.
  intros r Hr; unfold flock_blocking.
  destruct (lock (fs w root)); cbn; try reflexivity; now apply update_workspace_other.
Qed.

(** A call that gets past the sentinel and the lock is the update under the
    lock followed by the unlock. *)
Lemma save_app_port_run app port workspace_root w :
  sentinel_ready w (resolve_root workspace_root) ->
  lock (fs w (resolve_root workspace_root)) <> LockHeldForever ->
  exists w2,
    flock_blocking (resolve_root workspace_root) (touched (resolve_root workspace_root) w)
    = (Ret tt, w2)
    /\ registry_untouched w w2
    /\ others_untouched (resolve_root workspace_root) w w2
    /\ lock (fs w2 (resolve_root workspace_root)) = LockHeldBySelf
    /\ clock w <= clock w2
    /\ save_app_port app port workspace_root w
       = (fst (update_registry app port (resolve_root workspace_root) w2),
          flock_unlock (resolve_root workspace_root)
            (snd (update_registry app port (resolve_root workspace_root) w2))).
Proof.
  intros Hs Hl; unfold save_app_port, bind.
  rewrite touch_lock_file_ready by assumption.
  destruct (flock_blocking_cases (resolve_root workspace_root)
              (touched (resolve_root workspace_root) w))
    as [[Hf _] | [_ (w2 & E & Hself & Hck & Hu & _)]].
  - rewrite touched_lock in Hf; contradiction.
  - pose proof (flock_blocking_others (resolve_root workspace_root)
                  (touched (resolve_root workspace_root) w)) as Ho.
    rewrite E in *; cbn [snd] in Ho.
    exists w2; rewrite touched_clock in Hck; repeat apply conj; auto.
    + eapply registry_untouched_trans; [apply touched_untouched | exact Hu].
    + eapply others_untouched_trans; [apply touched_others | exact Ho].
    + unfold try_finally.
      pose proof (update_registry_returns app port (resolve_root workspace_root) w2) as Hr.
      destruct (update_registry app port (resolve_root workspace_root) w2) as [[[] | e |] w3];
        cbn [fst snd] in *; congruence.
Qed.

(** X3: [save_app_port] gives the lock back on every way out of the update:
    if the sentinel is there or can be created and the holder of the lock
    lets go some time, the call comes back, normally or with an exception
    (a registry that is not an object, an unwritable directory, a full
    disk), and the lock is free afterwards. *)
Theorem save_app_port_releases :
  forall (app : string) (port : Z) (workspace_root : option string) (w : world),
    sentinel_ready w (resolve_root workspace_root) ->
    lock (fs w (resolve_root workspace_root)) <> LockHeldForever ->
    fst (save_app_port app port workspace_root w) <> Hang
    /\ lock (fs (snd (save_app_port app port workspace_root w))
                (resolve_root workspace_root)) = LockFree.
Proof.
  intros app port workspace_root w Hs Hl.
  destruct (save_app_port_run app port workspace_root w Hs Hl) as (w2 & _ & _ & _ & _ & _ & E).
  rewrite E; cbn [fst snd]; split;
    [apply update_registry_returns | apply flock_unlock_lock].
Qed.

Lemma save_app_port_outcome app port workspace_root w :
  sentinel_ready w (resolve_root workspace_root) ->
  lock (fs w (resolve_root workspace_root)) <> LockHeldForever ->
  fst (save_app_port app port workspace_root w)
  = match load_ports_data (resolve_root workspace_root) w with
    | PDict _ =>
        if dir_writable (fs w (resolve_root workspace_root))
        then if disk_full (fs w (resolve_root workspace_root))
             then Raise OSError else Ret tt
        else Raise OSError
    | _ => Raise TypeError
    end.
Proof.
  intros Hs Hl.
  destruct (save_app_port_run app port workspace_root w Hs Hl)
    as (w2 & _ & [Hp _ Hw Hd _] & _ & _ & _ & E).
  rewrite E; cbn [fst]; rewrite update_registry_outcome.
  now rewrite (load_ports_data_ext _ w w2 (Hp _)), Hw, Hd.
Qed.

(** X10: what a save that returns normally needed: the holder of the lock
    let go, a file could be created in the workspace, the write did not run
    out of disk space, and the registry file did not hold JSON other than an
    object. *)
Theorem save_app_port_returns_only_if :
  forall (app : string) (port : Z) (workspace_root : option string) (w : world),
    fst (save_app_port app port workspace_root w) = Ret tt ->
    lock (fs w (resolve_root workspace_root)) <> LockHeldForever
    /\ dir_writable (fs w (resolve_root workspace_root)) = true
    /\ disk_full (fs w (resolve_root workspace_root)) = false
    /\ not_an_object (ports_file (fs w (resolve_root workspace_root))) = false.
Proof.
  intros app port workspace_root w H.
  assert (Hshape : (exists d, load_ports_data (resolve_root workspace_root) w = PDict d)
                   -> not_an_object (ports_file (fs w (resolve_root workspace_root)))
                      = false).
  { unfold load_ports_data, not_an_object.
    destruct (ports_file (fs w (resolve_root workspace_root))) as [| | | v]; auto.
    destruct v; auto; intros [d Hd]; discriminate. }
  destruct (lock_file (fs w (resolve_root workspace_root))) eqn:Hlf,
           (dir_writable (fs w (resolve_root workspace_root))) eqn:Hdw.
  4: { unfold save_app_port, bind in H.
       rewrite touch_lock_file_blocked in H by assumption; discriminate. }
  all: assert (Hs : sentinel_ready w (resolve_root workspace_root))
      by (unfold sentinel_ready; auto).
  all: destruct (lock (fs w (resolve_root workspace_root))) eqn:Hl;
    try (rewrite save_app_port_blocks in H by assumption; discriminate).
  all: rewrite save_app_port_outcome in H by (assumption || (rewrite Hl; discriminate)).
  all: rewrite ?Hdw in H.
  all: split; [discriminate |].
  all: destruct (load_ports_data (resolve_root workspace_root) w) eqn:Hd;
    try discriminate.
  all: destruct (disk_full (fs w (resolve_root workspace_root))); try discriminate.
  all: repeat apply conj; auto; apply Hshape; eauto.
Qed.

(** X11: a save that runs out of disk space fails with [OSError] and leaves
    the registry file as it was, but leaves the half-written temporary file
    behind; the lock is released. *)
Theorem save_app_port_on_full_disk :
  forall (app : string) (port : Z) (workspace_root : option string) (w : world),
    lock (fs w (resolve_root workspace_root)) <> LockHeldForever ->
    dir_writable (fs w (resolve_root workspace_root)) = true ->
    disk_full (fs w (resolve_root workspace_root)) = true ->
    not_an_object (ports_file (fs w (resolve_root workspace_root))) = false ->
    fst (save_app_port app port workspace_root w) = Raise OSError
    /\ ports_file (fs (snd (save_app_port app port workspace_root w))
                      (resolve_root workspace_root))
       = ports_file (fs w (resolve_root workspace_root))
    /\ temp_file (fs (snd (save_app_port app port workspace_root w))
                     (resolve_root workspace_root)) = Malformed
    /\ lock (fs (snd (save_app_port app port workspace_root w))
                (resolve_root workspace_root)) = LockFree.
Proof.
  intros app port workspace_root w Hl Hdw Hdf Hobj.
  assert (Hs : sentinel_ready w (resolve_root workspace_root)) by now right.
  destruct (save_app_port_run app port workspace_root w Hs Hl)
    as (w2 & _ & [Hp _ Hw Hd _] & _ & _ & _ & E).
  assert (Hdict : exists d, load_ports_data (resolve_root workspace_root) w2 = PDict d).
  { rewrite (load_ports_data_ext _ w w2 (Hp _)).
    unfold load_ports_data, not_an_object in *.
    destruct (ports_file (fs w (resolve_root workspace_root))) as [| | | v]; eauto.
    destruct v; eauto; discriminate. }
  destruct Hdict as [d Hdict].
  rewrite E, (update_registry_disk_full app port _ w2 d Hdict) by congruence.
  cbn [fst snd].
  destruct (flock_unlock_fields (resolve_root workspace_root)
              (set_workspace (resolve_root workspace_root)
                 (with_temp_file Malformed (fs w2 (resolve_root workspace_root))) w2)
              (resolve_root workspace_root)) as [F1 F2].
  repeat apply conj; auto.
  - rewrite F1; cbn; rewrite update_workspace_same; apply Hp.
  - rewrite F2; cbn; now rewrite update_workspace_same.
  - apply flock_unlock_lock.
Qed.

(** X12: a registry file that holds JSON other than an object (an array, a
    string, a number) stops both lock-taking operations: the allocator
    raises [AttributeError] and the writer [TypeError]; neither repairs the
    file, and both release the lock. *)
Theorem registry_that_is_not_an_object :
  forall (app : string) (port preferred_port max_attempts : Z)
         (workspace_root : option string) (w : world),
    sentinel_ready w (resolve_root workspace_root) ->
    lock_obtainable w (resolve_root workspace_root) ->
    not_an_object (ports_file (fs w (resolve_root workspace_root))) = true ->
    fst (find_available_port_with_lock preferred_port max_attempts workspace_root w)
    = Raise AttributeError
    /\ fst (save_app_port app port workspace_root w) = Raise TypeError
    /\ ports_file (fs (snd (save_app_port app port workspace_root w))
                      (resolve_root workspace_root))
       = ports_file (fs w (resolve_root workspace_root))
    /\ lock (fs (snd (find_available_port_with_lock preferred_port max_attempts
                        workspace_root w))
                (resolve_root workspace_root)) = LockFree
    /\ lock (fs (snd (save_app_port app port workspace_root w))
                (resolve_root workspace_root)) = LockFree.
Proof.
  intros app port p n workspace_root w Hs Hl Hobj.
  assert (Hnf : lock (fs w (resolve_root workspace_root)) <> LockHeldForever).
  { intros H; unfold lock_obtainable in Hl; rewrite H in Hl; discriminate. }
  destruct (ports_file (fs w (resolve_root workspace_root))) as [| | | v] eqn:Hfile;
    try discriminate.
  assert (Hv : forall d, v <> PDict d) by (intros d ->; discriminate).
  split.
  { rewrite find_available_port_with_lock_locked by assumption.
    unfold load_allocated_ports; rewrite Hfile.
    destruct v; try reflexivity; now destruct (Hv d). }
  destruct (save_app_port_run app port workspace_root w Hs Hnf)
    as (w2 & _ & [Hp _ _ _ _] & _ & _ & _ & E).
  assert (Hload : forall d, load_ports_data (resolve_root workspace_root) w2 <> PDict d).
  { intros d; rewrite (load_ports_data_ext _ w w2 (Hp _)).
    unfold load_ports_data; rewrite Hfile; apply Hv. }
  rewrite E, (update_registry_not_dict app port _ w2 Hload); cbn [fst snd].
  repeat apply conj; auto.
  - destruct (flock_unlock_fields (resolve_root workspace_root) w2
                (resolve_root workspace_root)) as [F1 _].
    rewrite F1, Hp; exact Hfile.
  - destruct (scan_ends_with_unlock p n workspace_root w Hs Hl) as (w3 & E3 & _).
    rewrite E3; apply flock_unlock_lock.
  - apply flock_unlock_lock.
Qed.

(** X13: saving over a registry file that is missing, unreadable or not JSON
    starts the registry afresh: after a save that returned, the file holds
    the record of the saved application and nothing else. *)
Theorem save_app_port_starts_afresh :
  forall (app : string) (port : Z) (workspace_root : option string) (w w' : world),
    unloadable (ports_file (fs w (resolve_root workspace_root))) = true ->
    save_app_port app port workspace_root w = (Ret tt, w') ->
    exists now,
      clock w <= now
      /\ get_all_app_ports workspace_root w'
         = Ret (PDict [(app, allocation_record port now)]).
Proof.
  intros app port workspace_root w w' Hun E.
  destruct (save_app_port_returns _ _ _ _ _ E) as (d & now & Hload & Hnow & Hp & _).
  assert (d = []).
  { unfold load_ports_data in Hload.
    destruct (ports_file (fs w (resolve_root workspace_root))); try discriminate;
      now inversion Hload. }
  subst d; exists now; split; [exact Hnow |].
  unfold get_all_app_ports; now rewrite Hp.
Qed.

(** X14: saving one application does not change what [get_app_port] answers
    for another: after [save_app_port app port] has returned, the answer for
    any other name is the one it was before, a port, [None] or an
    exception. *)
Theorem save_app_port_keeps_other_answers :
  forall (app other : string) (port : Z) (workspace_root : option string)
         (w w' : world),
    other <> app ->
    save_app_port app port workspace_root w = (Ret tt, w') ->
    get_app_port other workspace_root w' = get_app_port other workspace_root w.
Proof.
  intros app other port workspace_root w w' Hne E.
  destruct (save_app_port_returns _ _ _ _ _ E) as (d & now & Hload & _ & Hp & _).
  unfold get_app_port; rewrite Hp; cbn [contains_str getitem_str obind].
  unfold dict_mem; rewrite dict_get_set_other by assumption.
  unfold load_ports_data in Hload.
  destruct (ports_file (fs w (resolve_root workspace_root))) as [| | | v];
    try (inversion Hload; subst d; reflexivity).
  subst v; reflexivity.
Qed.

Lemma others_untouched_by_save app port workspace_root w :
  others_untouched (resolve_root workspace_root) w
                   (snd (save_app_port app port workspace_root w)).
Proof.
  destruct (lock_file (fs w (resolve_root workspace_root))) eqn:Hlf,
           (dir_writable (fs w (resolve_root workspace_root))) eqn:Hdw.
  4: { unfold save_app_port, bind; rewrite touch_lock_file_blocked by assumption.
       apply others_untouched_refl. }
  all: assert (Hs : sentinel_ready w (resolve_root workspace_root))
      by (unfold sentinel_ready; auto).
  all: destruct (lock (fs w (resolve_root workspace_root))) eqn:Hl.
  all: try (unfold save_app_port, bind; rewrite touch_lock_file_ready by assumption;
            unfold flock_blocking; rewrite touched_lock, Hl; apply touched_others).
  all: destruct (save_app_port_run app port workspace_root w Hs)
      as (w2 & _ & _ & Ho & _ & _ & E); [rewrite Hl; discriminate |].
  all: rewrite E; cbn [snd].
  all: eapply others_untouched_trans; [exact Ho |].
  all: eapply others_untouched_trans;
    [apply update_registry_others | apply flock_unlock_others].
Qed.

(** X15: [save_app_port] works on one workspace: whatever its outcome, the
    sentinel, the lock, the registry file and the temporary file of every
    other workspace root are exactly as before. *)
Theorem save_app_port_other_workspaces :
  forall (app : string) (port : Z) (workspace_root : option string) (w : world)
         (other_root : string),
    other_root <> resolve_root workspace_root ->
    fs (snd (save_app_port app port workspace_root w)) other_root = fs w other_root.
Proof.
  intros app port workspace_root w r Hr; now apply others_untouched_by_save.
Qed.

(** ** More attempts, no attempts, saving twice *)

(** X17: asking for more attempts never changes a port already found: if the
    call returns a port with [max_attempts] attempts, it returns the same
    port with any larger number of attempts. *)
Theorem find_available_port_with_lock_more_attempts :
  forall (preferred_port max_attempts more_attempts : Z)
         (workspace_root : option string) (w : world) (port : Z),
    fst (find_available_port_with_lock preferred_port max_attempts workspace_root w)
    = Ret port ->
    max_attempts <= more_attempts ->
    fst (find_available_port_with_lock preferred_port more_attempts workspace_root w)
    = Ret port.
Proof.
  intros p n n' workspace_root w q H Hle.
  destruct (returned_port_is_scanned _ _ _ _ _ H) as (Hs & Hl & _).
  destruct (returned_port_offset _ _ _ _ _ H)
    as (allocated & k & Hload & Hk & -> & Hu & Hbefore).
  apply first_fit_result with allocated; auto; [lia |].
  intros j Hj; rewrite <- (Z2Nat.id j) by lia; apply Hbefore; lia.
Qed.

(** X18: with no attempts allowed ([max_attempts] zero or negative) the call
    never returns a port; once it holds the lock and has loaded the registry
    it raises the allocation error without probing any port. *)
Theorem find_available_port_with_lock_no_attempts :
  forall (preferred_port max_attempts : Z) (workspace_root : option string) (w : world),
    max_attempts <= 0 ->
    (forall port,
        fst (find_available_port_with_lock preferred_port max_attempts workspace_root w)
        <> Ret port)
    /\ (sentinel_ready w (resolve_root workspace_root) ->
        lock_obtainable w (resolve_root workspace_root) ->
        forall allocated,
          load_allocated_ports (resolve_root workspace_root) w = Ret allocated ->
          fst (find_available_port_with_lock preferred_port max_attempts workspace_root w)
          = Raise (RuntimeError (exhausted_message preferred_port max_attempts))).
Proof.
  intros p n workspace_root w Hn; split.
  - intros q H.
    destruct (returned_port_offset _ _ _ _ _ H) as (_ & k & _ & Hk & _); lia.
  - intros Hs Hl allocated Hload.
    rewrite find_available_port_with_lock_locked, Hload by assumption; cbn [obind].
    unfold range; now replace (Z.to_nat n) with 0%nat by lia.
Qed.

(** X19: the last save wins and the registry does not grow: when the same
    application saves twice, the registry after the second save has the same
    names in the same order as after the first, the other records are the
    same, and [get_app_port] gives the port saved last. *)
Theorem save_app_port_twice :
  forall (app : string) (port1 port2 : Z) (workspace_root : option string)
         (w w1 w2 : world),
    save_app_port app port1 workspace_root w = (Ret tt, w1) ->
    save_app_port app port2 workspace_root w1 = (Ret tt, w2) ->
    get_app_port app workspace_root w2 = Ret (PInt port2)
    /\ exists d1 d2,
         ports_file (fs w1 (resolve_root workspace_root)) = Parsed (PDict d1)
         /\ ports_file (fs w2 (resolve_root workspace_root)) = Parsed (PDict d2)
         /\ dict_keys d2 = dict_keys d1
         /\ forall other, other <> app -> dict_get other d2 = dict_get other d1.
Proof.
  intros app port1 port2 workspace_root w w1 w2 E1 E2.
  split; [eapply claimed_port_is_read, save_app_port_claims; exact E2 |].
  destruct (save_app_port_returns _ _ _ _ _ E1) as (d & t1 & _ & _ & Hp1 & _).
  destruct (save_app_port_returns _ _ _ _ _ E2) as (d1 & t2 & Hload & _ & Hp2 & _).
  unfold load_ports_data in Hload; rewrite Hp1 in Hload; inversion Hload; subst d1.
  eexists; eexists; split; [exact Hp1 |]; split; [exact Hp2 |]; split.
  - rewrite dict_keys_set; unfold dict_mem; now rewrite dict_get_set_same.
  - intros other Hne; now apply dict_get_set_other.
Qed.

(** ** The further properties at sample worlds *)

Lemma sound_at_two_apps :
  exists allocated,
    load_allocated_ports "tools" two_apps_world = Ret allocated
    /\ set_contains_int allocated 4092 = false
    /\ port_free two_apps_world 4092 = true.
Proof.
  destruct (find_available_port_with_lock_sound 4090 100 None two_apps_world 4092)
    as (allocated & offset & Hload & _ & _ & Hnot & _ & _ & Hfree & _).
  - reflexivity.
  - exists allocated; auto.
Defined.

Lemma releases_at_two_apps :
  lock (fs (snd (find_available_port_with_lock 4090 100 None two_apps_world)) "tools")
  = LockFree.
Proof.
  refine (proj1 (find_available_port_with_lock_releases 4090 100 None two_apps_world _ _)).
  - left; reflexivity.
  - reflexivity.
Defined.

Lemma save_releases_at_full_disk :
  fst (save_app_port "mer" 4093 None full_disk_world) <> Hang
  /\ lock (fs (snd (save_app_port "mer" 4093 None full_disk_world)) "tools") = LockFree.
Proof.
  refine (save_app_port_releases "mer" 4093 None full_disk_world _ _).
  - left; reflexivity.
  - discriminate.
Defined.

Lemma waits_at_briefly_held :
  fst (find_available_port_with_lock 4090 100 None briefly_held_world)
  <> Raise (RuntimeError "Timeout waiting for port allocation lock")
  /\ 5250 <= clock (snd (find_available_port_with_lock 4090 100 None briefly_held_world)).
Proof.
  destruct (find_available_port_with_lock_waits_for_release 4090 100 None
              briefly_held_world 5250) as (H1 & H2 & _).
  - left; reflexivity.
  - reflexivity.
  - cbn; lia.
  - split; assumption.
Defined.

Lemma repeats_at_two_apps :
  fst (find_available_port_with_lock 4090 100 None
         (snd (find_available_port_with_lock 4090 100 None two_apps_world)))
  = fst (find_available_port_with_lock 4090 100 None two_apps_world).
Proof.
  refine (find_available_port_with_lock_repeats 4090 100 None two_apps_world _ _).
  - left; reflexivity.
  - reflexivity.
Defined.

Lemma reserved_at_idle :
  fst (find_available_port_with_lock 4090 100 None
         (snd (save_app_port "project-hub" 4090 None idle_world)))
  <> Ret 4090.
Proof.
  refine (saved_port_is_reserved "project-hub" 4090 None idle_world _ 4090 100 _).
  reflexivity.
Defined.

Lemma launch_three_at_idle :
  NoDup [4090; 4091; 4092]
  /\ get_app_port "mer" None
       (snd (launch_all ["project-hub"; "gsheet"; "mer"] 4090 100 None idle_world))
     = Ret (PInt 4092).
Proof.
  assert (Hfst : fst (launch_all ["project-hub"; "gsheet"; "mer"] 4090 100 None idle_world)
                 = Ret [4090; 4091; 4092]) by (vm_compute; reflexivity).
  destruct (launch_all ["project-hub"; "gsheet"; "mer"] 4090 100 None idle_world)
    as [o w'] eqn:E.
  cbn [fst snd] in *; subst o.
  destruct (launch_all_gives_distinct_ports ["project-hub"; "gsheet"; "mer"] 4090 100 None
              idle_world w' [4090; 4091; 4092])
    as (Hd & _ & Hread).
  - repeat constructor; cbn; intuition discriminate.
  - exact E.
  - split; [exact Hd |].
    inversion Hread as [| ? ? ? ? _ H1]; subst.
    inversion H1 as [| ? ? ? ? _ H2]; subst.
    inversion H2 as [| ? ? ? ? H3 _]; subst.
    exact H3.
Defined.

Lemma save_needs_at_idle :
  dir_writable (fs idle_world "tools") = true
  /\ disk_full (fs idle_world "tools") = false
  /\ not_an_object (ports_file (fs idle_world "tools")) = false.
Proof.
  destruct (save_app_port_returns_only_if "mer" 4093 None idle_world) as (_ & H).
  - vm_compute; reflexivity.
  - exact H.
Defined.

Lemma full_disk_at_two_apps :
  fst (save_app_port "mer" 4093 None full_disk_world) = Raise OSError
  /\ ports_file (fs (snd (save_app_port "mer" 4093 None full_disk_world)) "tools")
     = Parsed two_apps
  /\ temp_file (fs (snd (save_app_port "mer" 4093 None full_disk_world)) "tools")
     = Malformed.
Proof.
  destruct (save_app_port_on_full_disk "mer" 4093 None full_disk_world)
    as (H1 & H2 & H3 & _); try reflexivity; [discriminate |].
  repeat apply conj; assumption.
Defined.

Lemma not_an_object_at_array :
  fst (find_available_port_with_lock 4090 100 None array_world) = Raise AttributeError
  /\ fst (save_app_port "mer" 4093 None array_world) = Raise TypeError.
Proof.
  destruct (registry_that_is_not_an_object "mer" 4093 4090 100 None array_world)
    as (H1 & H2 & _).
  - left; reflexivity.
  - reflexivity.
  - reflexivity.
  - split; assumption.
Defined.

Lemma afresh_at_corrupt :
  exists now,
    0 <= now
    /\ get_all_app_ports None (snd (save_app_port "mer" 4093 None corrupt_world))
       = Ret (PDict [("mer", allocation_record 4093 now)]).
Proof.
  refine (save_app_port_starts_afresh "mer" 4093 None corrupt_world _ _ _);
    reflexivity.
Defined.

Lemma other_answers_at_two_apps :
  get_app_port "gsheet" None (snd (save_app_port "mer" 4093 None two_apps_world))
  = get_app_port "gsheet" None two_apps_world.
Proof.
  refine (save_app_port_keeps_other_answers "mer" "gsheet" 4093 None two_apps_world _ _ _).
  - discriminate.
  - reflexivity.
Defined.

Lemma other_workspace_at_two_apps :
  fs (snd (save_app_port "mer" 4093 None two_apps_world)) "docs"
  = fs two_apps_world "docs".
Proof.
  refine (save_app_port_other_workspaces "mer" 4093 None two_apps_world "docs" _).
  discriminate.
Defined.

Lemma more_attempts_at_two_apps :
  fst (find_available_port_with_lock 4090 200 None two_apps_world) = Ret 4092.
Proof.
  refine (find_available_port_with_lock_more_attempts 4090 100 200 None two_apps_world
            4092 _ _).
  - reflexivity.
  - lia.
Defined.

Lemma no_attempts_at_idle :
  fst (find_available_port_with_lock 4090 0 None idle_world)
  = Raise (RuntimeError "Could not find available port starting from 4090 after 0 attempts").
Proof.
  refine (proj2 (find_available_port_with_lock_no_attempts 4090 0 None idle_world _)
                _ _ [] _).
  - lia.
  - right; reflexivity.
  - reflexivity.
  - reflexivity.
Defined.

Lemma twice_at_idle :
  get_app_port "mer" None
    (snd (save_app_port "mer" 4094 None (snd (save_app_port "mer" 4093 None idle_world))))
  = Ret (PInt 4094).
Proof.
  assert (H1 : fst (save_app_port "mer" 4093 None idle_world) = Ret tt)
    by (vm_compute; reflexivity).
  assert (H2 : fst (save_app_port "mer" 4094 None
                      (snd (save_app_port "mer" 4093 None idle_world))) = Ret tt)
    by (vm_compute; reflexivity).
  destruct (save_app_port "mer" 4093 None idle_world) as [o1 w1] eqn:E1.
  cbn [fst snd] in *; subst o1.
  destruct (save_app_port "mer" 4094 None w1) as [o2 w2] eqn:E2.
  cbn [fst snd] in *; subst o2.
  exact (proj1 (save_app_port_twice "mer" 4093 4094 None idle_world w1 w2 E1 E2)).
Defined.
